(** * pdf_extraction_test: parser, extractors and result comparator

    A shallow embedding of [src/parser.py], [src/extractors.py] and
    [src/compare.py], and the properties of the design document that can be
    stated over it.

    Conventions of the embedding.
    - Python [int] is [Z]; Python [str] is [string] (ASCII identifiers);
      [Optional[T]] is [option T]; a [dict] used as a table is a [gmap].
    - Python [float] values are rationals.  Every float operation (of the
      comparator, of the cost formula, of the rate limiter, of the elapsed
      times) rounds its exact result through the rounding function of the
      class [Binary64]; [binary64] is the instance that rounds to nearest
      with 53 bits.
    - The clock is an explicit part of the state and it is ideal:
      [time.time()] returns its reading as it is, and [asyncio.sleep] resumes
      the caller no earlier than asked.
    - A call that may raise returns an [outcome]; a coroutine is a function
      of the state it runs in, and tasks that interleave are a transition
      system. *)

From Stdlib Require Import Ascii QArith Qminmax Qround Qabs Qpower Lqa.
From stdpp Require Import gmap strings list fin_maps pretty.

Set Warnings "-register-all,-clear-no-such-hyp".

Local Open Scope string_scope.
Local Open Scope Z_scope.
Local Open Scope list_scope.

(** ** Python values *)

(** What [json.loads] returns: the value held by [extracted_data]. A mapping
    keeps its entries in insertion order. *)
Inductive json : Type :=
  | JNull
  | JBool (b : bool)
  | JInt (z : Z)
  | JFloat (q : Q)
  | JStr (s : string)
  | JList (items : list json)
  | JDict (entries : list (string * json)).

(** Induction over [json] that reaches the values nested in sequences and
    mappings. *)
Section json_induction.
Variable P : json → Prop.
Hypothesis Hnull : P JNull.
Hypothesis Hbool : ∀ b, P (JBool b).
Hypothesis Hint : ∀ z, P (JInt z).
Hypothesis Hfloat : ∀ q, P (JFloat q).
Hypothesis Hstr : ∀ s, P (JStr s).
Hypothesis Hlist : ∀ items, Forall P items → P (JList items).
Hypothesis Hdict : ∀ entries, Forall (λ kv, P kv.2) entries → P (JDict entries).

Fixpoint json_nested_ind (v : json) : P v :=
  match v with
  | JNull => Hnull
  | JBool b => Hbool b
  | JInt z => Hint z
  | JFloat q => Hfloat q
  | JStr s => Hstr s
  | JList items =>
      Hlist items
        ((fix go (l : list json) : Forall P l :=
            match l with
            | [] => Forall_nil_2 P
            | x :: l' => Forall_cons_2 P x l' (json_nested_ind x) (go l')
            end) items)
  | JDict entries =>
      Hdict entries
        ((fix go (l : list (string * json)) : Forall (λ kv, P kv.2) l :=
            match l with
            | [] => Forall_nil_2 _
            | kv :: l' =>
                Forall_cons_2 (λ kv, P kv.2) kv l' (json_nested_ind kv.2) (go l')
            end) entries)
  end.
End json_induction.

(** [isinstance(value, (dict, list))] *)
Definition is_compound (v : json) : bool :=
  match v with
  | JList _ | JDict _ => true
  | _ => false
  end.

(** A non-null value that is neither a mapping nor a sequence. *)
Definition is_scalar (v : json) : bool :=
  match v with
  | JBool _ | JInt _ | JFloat _ | JStr _ => true
  | _ => false
  end.

(** Truth value of a Python object in a condition ([if data:]). *)
Definition truthy (v : json) : bool :=
  match v with
  | JNull => false
  | JBool b => b
  | JInt z => negb (z =? 0)%Z
  | JFloat q => negb (Qeq_bool q 0)
  | JStr s => negb (String.eqb s "")
  | JList items => match items with [] => false | _ => true end
  | JDict entries => match entries with [] => false | _ => true end
  end.

(** ** Exceptions and outcomes *)

Inductive exn_class : Type :=
  | TimeoutError
  | SDKError
  | ImportError
  | RuntimeError
  | ValueError
  | IndexError
  | ZeroDivisionError
  | OtherException.

(** An exception instance: its class and [str(e)]. *)
Record exn : Type := Exn { exn_class_of : exn_class; exn_str : string }.

Inductive outcome (A : Type) : Type :=
  | Returned (a : A)
  | Raised (e : exn).
Arguments Returned {A} a.
Arguments Raised {A} e.

(** Truth value of an [Optional[str]]: [None] and the empty string are false. *)
Definition truthy_str (o : option string) : bool :=
  match o with
  | None => false
  | Some s => negb (String.eqb s "")
  end.

(** ** Floating point *)

(** Binary floating point as the rationals it denotes.  [rnd] sends the exact
    result of an operation to the float that represents it; round-to-nearest
    is monotone and leaves the representable numbers 0 and 1 alone. *)
Class Binary64 : Type := {
  rnd : Q → Q;
  rnd_mono : ∀ x y : Q, (x <= y)%Q → (rnd x <= rnd y)%Q;
  rnd_0 : (rnd 0 == 0)%Q;
  rnd_1 : (rnd 1 == 1)%Q;
}.

(** Arithmetic without rounding error, for examples with exact numbers. *)
#[program] Definition exact_arithmetic : Binary64 := {| rnd := λ q, q |}.
Next Obligation. intros x y Hxy. exact Hxy. Qed.
Next Obligation. reflexivity. Qed.
Next Obligation. reflexivity. Qed.

Section float_operations.
Context `{Binary64}.

(** [a / b], [a * b], [a + b], [a - b] on floats (and [int / int], which
    Python rounds once, from the exact quotient). *)
Definition fdiv (a b : Q) : Q := rnd (a / b).
Definition fmul (a b : Q) : Q := rnd (a * b).
Definition fadd (a b : Q) : Q := rnd (a + b).
Definition fsub (a b : Q) : Q := rnd (a - b).

(** [float(n)] for an [int]. *)
Definition float_of_int (n : Z) : Q := rnd (inject_Z n).

(** [sum(xs)] over floats: additions from the left, starting at 0. *)
Definition fsum (xs : list Q) : Q := foldl fadd 0%Q xs.

(** The integer nearest to [q], a tie going to the even neighbour. *)
Definition round_half_even (q : Q) : Z :=
  let lo := Qfloor q in
  let frac := (q - inject_Z lo)%Q in
  match (frac ?= 1 # 2)%Q with
  | Lt => lo
  | Gt => lo + 1
  | Eq => if Z.even lo then lo else lo + 1
  end.

(** [round(x, ndigits)]: the float nearest to [x] rounded to [ndigits]
    decimal places. *)
Definition py_round (x : Q) (ndigits : Z) : Q :=
  let scale := inject_Z (10 ^ ndigits) in
  rnd (inject_Z (round_half_even (x * scale)) / scale).
End float_operations.

(** *** The rounding of binary64 *)

(** The binary exponent of a positive rational: the [e] with
    [2^e <= x < 2^(e+1)]. *)
Definition binary_exponent (x : Q) : Z :=
  let e0 := Z.log2 (Qnum x) - Z.log2 (Zpos (Qden x)) in
  if Qle_bool (2 ^ e0) x then e0 else e0 - 1.

(** The nearest number with a significand of [p] bits, a tie going to the
    even significand, for a positive [x]. *)
Definition round_to_precision (p : Z) (x : Q) : Q :=
  let scale := (2 ^ (p - 1 - binary_exponent x))%Q in
  Qred (inject_Z (round_half_even (x * scale)) / scale).

(** Round to nearest, ties to even, with the 53 bits of binary64.  The range
    of the exponent is not modelled: no number overflows, and none is flushed
    to zero. *)
Definition round_binary64 (x : Q) : Q :=
  match (x ?= 0)%Q with
  | Eq => 0%Q
  | Gt => round_to_precision 53 x
  | Lt => (- round_to_precision 53 (- x))%Q
  end.

(** The unit roundoff of binary64, [2^-53]. *)
Definition unit_roundoff : Q := 1 # (2 ^ 53).

(** A rounding is accurate when it moves no number by more than the unit
    roundoff, relative to the number. *)
Class Accurate `{Binary64} : Prop :=
  rnd_error : ∀ x : Q, (Qabs (rnd x - x) <= unit_roundoff * Qabs x)%Q.

(** ** Strings *)

(** [c.lower()] for an ASCII letter. *)
Definition ascii_lower (c : ascii) : ascii :=
  let n := nat_of_ascii c in
  if (65 <=? n)%nat && (n <=? 90)%nat then ascii_of_nat (n + 32) else c.

(** [s.lower()] *)
Fixpoint lower (s : string) : string :=
  match s with
  | EmptyString => EmptyString
  | String c rest => String (ascii_lower c) (lower rest)
  end.

(** [needle in hay] *)
Fixpoint contains (needle hay : string) : bool :=
  String.prefix needle hay ||
  match hay with
  | EmptyString => false
  | String _ rest => contains needle rest
  end.

(** The line feed of ["\n"]. *)
Definition newline : string := String (ascii_of_nat 10) EmptyString.

(** [s.split(sep)] for a one-character separator. *)
Fixpoint split (sep : ascii) (s : string) : list string :=
  match s with
  | EmptyString => [EmptyString]
  | String c rest =>
      if Ascii.eqb c sep then EmptyString :: split sep rest
      else match split sep rest with
           | piece :: pieces => String c piece :: pieces
           | [] => [String c EmptyString]
           end
  end.

(** ** The rate limiter and the effects of a call *)

(** [config.Settings]: the fields the parser and the extractors read. *)
Record Settings : Type := {
  unstructured_api_key : option string;
  claude_sonnet_model : string;
  claude_haiku_model : string;
  openai_gpt4_model : string;
  anthropic_rpm : Z;
  openai_rpm : Z;
  unstructured_rpm : Z;
  api_timeout : Z;
  max_output_tokens : Z;
}.

Definition default_settings : Settings :=
  {| unstructured_api_key := None;
     claude_sonnet_model := "claude-sonnet-4-20250514";
     claude_haiku_model := "claude-3-5-haiku-20241022";
     openai_gpt4_model := "gpt-4-turbo-preview";
     anthropic_rpm := 50;
     openai_rpm := 60;
     unstructured_rpm := 30;
     api_timeout := 120;
     max_output_tokens := 4096 |}.

(** [RateLimiter], the same class in [parser.py] and [extractors.py].  Its
    lock is part of the task system below; a call running alone always finds
    it free. *)
Record RateLimiter : Type := {
  requests_per_minute : Z;
  min_interval : Q;
  last_request_time : Q;
}.

(** [RateLimiter.__init__]: [60.0 / requests_per_minute] converts the
    [int] to a float and divides; it raises on 0. *)
Definition RateLimiter_init `{Binary64} (rpm : Z) : outcome RateLimiter :=
  if decide (rpm = 0)
  then Raised (Exn ZeroDivisionError "float division by zero")
  else Returned {| requests_per_minute := rpm;
                   min_interval := fdiv 60 (float_of_int rpm);
                   last_request_time := 0 |}.

Definition set_last_request_time (self : RateLimiter) (t : Q) : RateLimiter :=
  {| requests_per_minute := requests_per_minute self;
     min_interval := min_interval self;
     last_request_time := t |}.

(** What a call can observe and change: the clock read by [time.time()], the
    number of requests sent to the remote service so far, and the rate
    limiter of the object the call runs on. *)
Record State : Type := {
  now : Q;
  calls : nat;
  limiter : RateLimiter;
}.

Definition advance (d : Q) (s : State) : State :=
  {| now := now s + d; calls := calls s; limiter := limiter s |}.

(** A computation that reads and changes the state and returns or raises. *)
Definition M (A : Type) : Type := State → outcome A * State.

Definition ret {A} (a : A) : M A := λ s, (Returned a, s).

Definition raise {A} (e : exn) : M A := λ s, (Raised e, s).

Definition bind {A B} (m : M A) (k : A → M B) : M B :=
  λ s, match m s with
       | (Returned a, s') => k a s'
       | (Raised e, s') => (Raised e, s')
       end.

(** [try: body except Exception as e: handler(e)] *)
Definition try_except {A} (body : M A) (handler : exn → M A) : M A :=
  λ s, match body s with
       | (Returned a, s') => (Returned a, s')
       | (Raised e, s') => handler e s'
       end.

Notation "'let!' x ':=' m 'in' k" := (bind m (λ x, k))
  (at level 10, x name, m at level 100, k at level 200, only parsing).

(** [time.time()] *)
Definition time_time : M Q := λ s, (Returned (now s), s).

(** [await asyncio.sleep(d)]: the caller resumes [d] seconds later, or [lag]
    seconds after that when the event loop is busy. *)
Definition sleep (lag d : Q) : M unit := λ s, (Returned tt, advance (d + lag) s).

Definition get_limiter : M RateLimiter := λ s, (Returned (limiter s), s).

Definition put_limiter (l : RateLimiter) : M unit :=
  λ s, (Returned tt, {| now := now s; calls := calls s; limiter := l |}).

(** [RateLimiter.acquire], run by a task that finds the lock free. *)
Definition acquire `{Binary64} (lag : Q) : M unit :=
  let! self := get_limiter in
  let! now_ := time_time in
  let time_since_last := fsub now_ (last_request_time self) in
  let! _ := (if Qlt_le_dec time_since_last (min_interval self)
             then
               let wait_time := fsub (min_interval self) time_since_last in
               sleep lag wait_time
             else ret tt) in
  let! t := time_time in
  put_limiter (set_last_request_time self t).

(** [await asyncio.wait_for(request, timeout)]: the request is the next one
    the service receives; it takes [d] seconds and ends as [o], unless the
    timeout comes first. *)
Definition wait_for {R} (request : nat → Q * outcome R) (timeout : Q) : M R :=
  λ s, let '(d, o) := request (calls s) in
       let sent := {| now := now s; calls := S (calls s); limiter := limiter s |} in
       if Qlt_le_dec timeout d
       then (Raised (Exn TimeoutError ""), advance timeout sent)
       else (o, advance d sent).

(** A blocking call run in the executor, without a timeout. *)
Definition run_in_executor {R} (request : nat → Q * outcome R) : M R :=
  λ s, let '(d, o) := request (calls s) in
       (o, advance d {| now := now s; calls := S (calls s); limiter := limiter s |}).

(** *** [tenacity.retry] *)

(** [wait_exponential(multiplier, min, max)] before the attempt after
    [attempt_number]. *)
Definition wait_exponential (multiplier min_ max_ : Q) (attempt_number : nat) : Q :=
  Qmax min_ (Qmin (multiplier * inject_Z (2 ^ Z.of_nat (attempt_number - 1))) max_).

(** The loop of the decorator: call [fn]; an exception that [retry_if]
    accepts is retried after a wait while attempts are left, and re-raised
    after the last one ([reraise=True]); any other exception propagates. *)
Fixpoint retrying {A} (lag : Q) (retry_if : exn → bool)
    (attempts_left attempt_number : nat) (fn : M A) : M A :=
  λ s, match fn s with
       | (Returned a, s') => (Returned a, s')
       | (Raised e, s') =>
           if retry_if e then
             match attempts_left with
             | O => (Raised e, s')
             | S remaining =>
                 retrying lag retry_if remaining (S attempt_number) fn
                   (snd (sleep lag (wait_exponential 1 2 60 attempt_number) s'))
             end
           else (Raised e, s')
       end.

(** [@retry(stop=stop_after_attempt(n), wait=wait_exponential(multiplier=1,
    min=2, max=60), retry=retry_if, reraise=True)] *)
Definition retry {A} (lag : Q) (stop_after_attempt : nat) (retry_if : exn → bool)
    (fn : M A) : M A :=
  retrying lag retry_if (stop_after_attempt - 1) 1 fn.

(** ** Extraction results *)

Module Extractors.

(** [ExtractionResult], with the defaults of the dataclass. *)
Record ExtractionResult : Type := {
  model : string;
  query_type : Z;
  query_name : string;
  extracted_data : option json;
  raw_response : string;
  prompt_tokens : Z;
  completion_tokens : Z;
  total_tokens : Z;
  extraction_time : Q;
  cost_usd : Q;
  error : option string;
  metadata : list (string * option string);
}.

(** The invariant the design document gives the record: an error comes with
    no extracted data and zero token counts. *)
Definition ExtractionResult_inv (r : ExtractionResult) : Prop :=
  error r ≠ None →
  extracted_data r = None ∧ prompt_tokens r = 0 ∧ completion_tokens r = 0 ∧
  total_tokens r = 0.

(** *** [BaseExtractor._calculate_cost] *)

(** The pricing table: dollars per million input and output tokens. *)
Definition pricing : gmap string (Q * Q) :=
  <["claude-sonnet" := (3, 15)%Q]>
    (<["claude-haiku" := (1 # 4, 5 # 4)%Q]>
       (<["gpt-4" := (10, 30)%Q]> ∅)).

(** The model category the code determines from the identifier. *)
Definition model_category (model : string) : option string :=
  if contains "sonnet" (lower model) then Some "claude-sonnet"
  else if contains "haiku" (lower model) then Some "claude-haiku"
  else if contains "gpt-4" (lower model) || contains "gpt4" (lower model)
       then Some "gpt-4"
  else None.

Definition _calculate_cost `{Binary64}
    (prompt_tokens completion_tokens : Z) (model : string) : Q :=
  let model_key := model_category model in
  match model_key with
  | Some key =>
      match pricing !! key with
      | Some (input_price, output_price) =>
          let cost :=
            fadd (fmul (fdiv (inject_Z prompt_tokens) 1000000) input_price)
                 (fmul (fdiv (inject_Z completion_tokens) 1000000) output_price) in
          py_round cost 6
      | None => 0%Q
      end
  | None => 0%Q
  end.

(** The backend families of the design document and their prices. *)
Inductive backend_family : Type := ClaudeSonnet | ClaudeHaiku | GPT4.

Definition price_per_million (f : backend_family) : Q * Q :=
  match f with
  | ClaudeSonnet => (3, 15)%Q
  | ClaudeHaiku => (1 # 4, 5 # 4)%Q
  | GPT4 => (10, 30)%Q
  end.

(** The family an identifier belongs to: the first of sonnet, haiku, gpt-4
    whose name occurs in the lower-cased identifier. *)
Definition family_of (model : string) : option backend_family :=
  if contains "sonnet" (lower model) then Some ClaudeSonnet
  else if contains "haiku" (lower model) then Some ClaudeHaiku
  else if contains "gpt-4" (lower model) || contains "gpt4" (lower model)
       then Some GPT4
  else None.

(** The cost formula of the design document:
    [round(promptTokens/1e6 * inputPrice + completionTokens/1e6 * outputPrice, 6)]. *)
Definition spec_cost `{Binary64}
    (f : backend_family) (prompt_tokens completion_tokens : Z) : Q :=
  let '(input_price, output_price) := price_per_million f in
  py_round (fadd (fmul (fdiv (inject_Z prompt_tokens) 1000000) input_price)
                 (fmul (fdiv (inject_Z completion_tokens) 1000000) output_price)) 6.

(** *** The extractors *)

Inductive ModelType : Type := CLAUDE_SONNET | CLAUDE_HAIKU | GPT4_MODEL.

Definition ModelType_value (t : ModelType) : string :=
  match t with
  | CLAUDE_SONNET => "claude-sonnet"
  | CLAUDE_HAIKU => "claude-haiku"
  | GPT4_MODEL => "gpt-4"
  end.

(** The result of the [except] branches: the defaults, the elapsed time and
    the error. *)
Definition ExtractionResult_failed (model : string) (query_type : Z) (query_name : string)
    (elapsed : Q) (error_msg : string) : ExtractionResult :=
  {| model := model; query_type := query_type; query_name := query_name;
     extracted_data := None; raw_response := "";
     prompt_tokens := 0; completion_tokens := 0; total_tokens := 0;
     extraction_time := elapsed; cost_usd := 0; error := Some error_msg;
     metadata := [] |}.

(** The message of a response of the Anthropic client. *)
Record ClaudeResponse : Type := {
  content : list string;
  input_tokens : Z;
  output_tokens : Z;
  stop_reason : option string;
}.

(** The completion of a response of the OpenAI client. *)
Record Choice : Type := {
  message_content : option string;
  finish_reason : option string;
}.

Record OpenAIResponse : Type := {
  choices : list Choice;
  usage_prompt_tokens : Z;
  usage_completion_tokens : Z;
  usage_total_tokens : Z;
}.

Section extractors.
Context `{Binary64}.

(** The configuration, the delay of the event loop, and the libraries the
    extractors call: [json.loads] ([None] for a [JSONDecodeError]), the two
    [re.search] patterns of [_parse_json_response], and the two remote
    clients, each giving for the n-th request it receives the time it takes
    and how it ends. *)
Variable settings : Settings.
Variable lag : Q.
Variable json_loads : string → option json.
Variable search_code_block : string → option string.
Variable search_braces : string → option string.
Variable messages_create : string → Z → string → nat → Q * outcome ClaudeResponse.
Variable chat_completions_create :
  string → Z → string → string → nat → Q * outcome OpenAIResponse.

(** A decoded [null] is Python's [None]. *)
Definition optional_of_json (v : json) : option json :=
  match v with JNull => None | _ => Some v end.

Definition _parse_json_response (response_text : string) : option json :=
  match json_loads response_text with
  | Some v => optional_of_json v
  | None =>
      match search_code_block response_text ≫= json_loads with
      | Some v => optional_of_json v
      | None =>
          match search_braces response_text ≫= json_loads with
          | Some v => optional_of_json v
          | None => None
          end
      end
  end.

(** [retry_if_exception_type((asyncio.TimeoutError, Exception))]: every
    exception is an [Exception]. *)
Definition retry_if_any_exception (e : exn) : bool := true.

Definition is_timeout (e : exn) : bool :=
  match exn_class_of e with TimeoutError => true | _ => false end.

Record ClaudeExtractor : Type := {
  ce_model_name : string;
  ce_model_type : ModelType;
}.

(** [ClaudeExtractor.__init__]: the extractor and its rate limiter. *)
Definition ClaudeExtractor_init (model_type : ModelType) (rate_limit : option Z)
  : outcome (ClaudeExtractor * RateLimiter) :=
  let model_name :=
    match model_type with
    | CLAUDE_SONNET => claude_sonnet_model settings
    | _ => claude_haiku_model settings
    end in
  let rpm := match rate_limit with
             | Some r => if decide (r = 0) then anthropic_rpm settings else r
             | None => anthropic_rpm settings
             end in
  match RateLimiter_init rpm with
  | Returned l => Returned ({| ce_model_name := model_name; ce_model_type := model_type |}, l)
  | Raised e => Raised e
  end.

(** The body of [extract], one attempt. *)
Definition ClaudeExtractor_extract_attempt (self : ClaudeExtractor) (text prompt : string) (query_type : Z)
    (query_name : string) : M ExtractionResult :=
  let! _ := acquire lag in
  let! start_time := time_time in
  try_except
    (let user_message :=
       prompt +:+ newline +:+ newline +:+ "Document text:" +:+ newline +:+ newline
              +:+ text in
     let! response :=
       wait_for (messages_create (ce_model_name self) (max_output_tokens settings)
                                 user_message)
                (inject_Z (api_timeout settings)) in
     let! finished := time_time in
     let extraction_time := fsub finished start_time in
     let response_text := match content response with
                          | [] => ""
                          | block :: _ => block
                          end in
     let extracted_data := _parse_json_response response_text in
     let prompt_tokens := input_tokens response in
     let completion_tokens := output_tokens response in
     let total_tokens := prompt_tokens + completion_tokens in
     let cost := _calculate_cost prompt_tokens completion_tokens (ce_model_name self) in
     ret {| model := ce_model_name self;
            query_type := query_type;
            query_name := query_name;
            extracted_data := extracted_data;
            raw_response := response_text;
            prompt_tokens := prompt_tokens;
            completion_tokens := completion_tokens;
            total_tokens := total_tokens;
            extraction_time := extraction_time;
            cost_usd := cost;
            error := None;
            metadata := [("stop_reason", stop_reason response);
                         ("model_type", Some (ModelType_value (ce_model_type self)))] |})
    (λ e,
       if is_timeout e then
         let error_msg := "Timeout after " +:+ pretty (api_timeout settings) +:+ "s" in
         let! failed := time_time in
         ret (ExtractionResult_failed (ce_model_name self) query_type query_name
                (fsub failed start_time) error_msg)
       else
         let! failed := time_time in
         ret (ExtractionResult_failed (ce_model_name self) query_type query_name
                (fsub failed start_time) (exn_str e))).

(** [extract] as decorated: up to 3 attempts, any exception retried. *)
Definition ClaudeExtractor_extract (self : ClaudeExtractor) (text prompt : string) (query_type : Z)
    (query_name : string) : M ExtractionResult :=
  retry lag 3 retry_if_any_exception
        (ClaudeExtractor_extract_attempt self text prompt query_type query_name).

Record OpenAIExtractor : Type := { oe_model_name : string }.

Definition OpenAIExtractor_init (model_name : option string) (rate_limit : option Z)
  : outcome (OpenAIExtractor * RateLimiter) :=
  let model := match model_name with
               | Some name => if String.eqb name "" then openai_gpt4_model settings
                              else name
               | None => openai_gpt4_model settings
               end in
  let rpm := match rate_limit with
             | Some r => if decide (r = 0) then openai_rpm settings else r
             | None => openai_rpm settings
             end in
  match RateLimiter_init rpm with
  | Returned l => Returned ({| oe_model_name := model |}, l)
  | Raised e => Raised e
  end.

Definition OpenAIExtractor_extract_attempt (self : OpenAIExtractor) (text prompt : string) (query_type : Z)
    (query_name : string) : M ExtractionResult :=
  let! _ := acquire lag in
  let! start_time := time_time in
  try_except
    (let! response :=
       wait_for (chat_completions_create (oe_model_name self) (max_output_tokens settings)
                   prompt ("Document text:" +:+ newline +:+ newline +:+ text))
                (inject_Z (api_timeout settings)) in
     let! finished := time_time in
     let extraction_time := fsub finished start_time in
     let response_text :=
       match choices response with
       | first :: _ =>
           match message_content first with
           | Some c => c
           | None => ""
           end
       | [] => ""
       end in
     let extracted_data := _parse_json_response response_text in
     let prompt_tokens := usage_prompt_tokens response in
     let completion_tokens := usage_completion_tokens response in
     let total_tokens := usage_total_tokens response in
     let cost := _calculate_cost prompt_tokens completion_tokens (oe_model_name self) in
     match choices response with
     | [] => raise (Exn IndexError "list index out of range")
     | first :: _ =>
         ret {| model := oe_model_name self;
                query_type := query_type;
                query_name := query_name;
                extracted_data := extracted_data;
                raw_response := response_text;
                prompt_tokens := prompt_tokens;
                completion_tokens := completion_tokens;
                total_tokens := total_tokens;
                extraction_time := extraction_time;
                cost_usd := cost;
                error := None;
                metadata := [("finish_reason", finish_reason first)] |}
     end)
    (λ e,
       if is_timeout e then
         let error_msg := "Timeout after " +:+ pretty (api_timeout settings) +:+ "s" in
         let! failed := time_time in
         ret (ExtractionResult_failed (oe_model_name self) query_type query_name
                (fsub failed start_time) error_msg)
       else
         let! failed := time_time in
         ret (ExtractionResult_failed (oe_model_name self) query_type query_name
                (fsub failed start_time) (exn_str e))).

Definition OpenAIExtractor_extract (self : OpenAIExtractor) (text prompt : string) (query_type : Z)
    (query_name : string) : M ExtractionResult :=
  retry lag 3 retry_if_any_exception
        (OpenAIExtractor_extract_attempt self text prompt query_type query_name).

End extractors.

(** A backend for the scenario of a transient failure: the first request
    hangs for 130 seconds, every later one answers within 3 seconds. *)
Definition answer : ClaudeResponse :=
  {| content := ["{}"]; input_tokens := 1000; output_tokens := 500;
     stop_reason := Some "end_turn" |}.

Definition hangs_once (model : string) (max_tokens : Z) (user_message : string)
    (n : nat) : Q * outcome ClaudeResponse :=
  match n with
  | O => (130%Q, Returned answer)
  | S _ => (3%Q, Returned answer)
  end.

Definition sonnet_extractor : ClaudeExtractor :=
  {| ce_model_name := "claude-sonnet-4-20250514"; ce_model_type := CLAUDE_SONNET |}.

(** A fresh limiter at 50 requests per minute, the clock at 1000 seconds. *)
Definition fresh_state : State :=
  {| now := 1000; calls := 0;
     limiter := {| requests_per_minute := 50; min_interval := 60 / 50;
                   last_request_time := 0 |} |}.

(** A function that sends a request and raises, every time it is called. *)
Definition always_fails : M unit :=
  λ s, (Raised (Exn OtherException "connection reset"),
        {| now := now s; calls := S (calls s); limiter := limiter s |}).

End Extractors.

Module Compare.
Import Extractors.

(** *** [ResultComparator._count_fields] *)

Fixpoint _count_fields (data : json) (path : string) {struct data} : Z :=
  match data with
  | JNull => 0
  | JDict entries =>
      (fix items (es : list (string * json)) (count : Z) {struct es} : Z :=
         match es with
         | [] => count
         | (key, value) :: es' =>
             items es'
               (match value with
                | JNull => count
                | JDict _ | JList _ =>
                    count + _count_fields value
                              (if String.eqb path "" then key else path +:+ "." +:+ key)
                | _ => count + 1
                end)
         end) entries 0
  | JList xs =>
      (fix enumerate (l : list json) (i : nat) (count : Z) {struct l} : Z :=
         match l with
         | [] => count
         | item :: l' =>
             enumerate l' (S i)
               (count + _count_fields item (path +:+ "[" +:+ pretty i +:+ "]"))
         end) xs 0%nat 0
  | _ => 0
  end.

(** The field count as the design document words it: a non-null scalar is one
    field wherever it stands, a null is none, a mapping sums its non-null
    values, a sequence sums its elements. *)
Fixpoint spec_count_fields (v : json) : Z :=
  match v with
  | JNull => 0
  | JDict entries =>
      (fix sum_values (es : list (string * json)) : Z :=
         match es with
         | [] => 0
         | (_, value) :: es' => spec_count_fields value + sum_values es'
         end) entries
  | JList xs =>
      (fix sum_items (l : list json) : Z :=
         match l with
         | [] => 0
         | item :: l' => spec_count_fields item + sum_items l'
         end) xs
  | _ => 1
  end.

(** A value with the scalars that are not the value of a mapping key made null:
    a scalar at the top level and a scalar standing directly in a sequence. *)
Fixpoint without_bare_scalars (v : json) : json :=
  match v with
  | JDict entries =>
      JDict ((fix values (es : list (string * json)) : list (string * json) :=
                match es with
                | [] => []
                | (key, value) :: es' =>
                    (key, if is_compound value then without_bare_scalars value else value)
                      :: values es'
                end) entries)
  | JList xs =>
      JList ((fix elements (l : list json) : list json :=
                match l with
                | [] => []
                | item :: l' => without_bare_scalars item :: elements l'
                end) xs)
  | _ => JNull
  end.

(** Every scalar of the value is the value of a mapping key: none stands at
    the top level or directly in a sequence. *)
Fixpoint scalars_keyed (v : json) : bool :=
  match v with
  | JNull => true
  | JDict entries =>
      (fix values (es : list (string * json)) : bool :=
         match es with
         | [] => true
         | (_, value) :: es' =>
             (if is_compound value then scalars_keyed value else true) && values es'
         end) entries
  | JList xs =>
      (fix elements (l : list json) : bool :=
         match l with
         | [] => true
         | item :: l' => scalars_keyed item && elements l'
         end) xs
  | _ => false
  end.

(** The test data of [test_result_comparator_count_fields]: two executives
    with two fields each. *)
Definition executives : json :=
  JDict [("executives",
          JList [JDict [("name", JStr "CEO"); ("salary", JInt 1000000)];
                 JDict [("name", JStr "CFO"); ("salary", JInt 800000)]])].

(** [{"a": 1, "b": null, "c": {"d": 2}}] *)
Definition example_abcd : json :=
  JDict [("a", JInt 1); ("b", JNull); ("c", JDict [("d", JInt 2)])].

(** *** [ComparisonMetrics] and the comparator *)

Record ComparisonMetrics : Type := {
  m_model : string;
  m_query_type : Z;
  fields_extracted : Z;
  total_fields_possible : Z;
  completeness_score : Q;
  m_extraction_time : Q;
  m_total_tokens : Z;
  m_cost_usd : Q;
  m_error : option string;
}.

(** The state of a [ResultComparator]: the accumulated results. *)
Record ResultComparator : Type := { results : list ExtractionResult }.

Definition new_comparator : ResultComparator := {| results := [] |}.

Definition add_result (self : ResultComparator) (result : ExtractionResult)
  : ResultComparator :=
  {| results := results self ++ [result] |}.

Definition add_results (self : ResultComparator) (rs : list ExtractionResult)
  : ResultComparator :=
  {| results := results self ++ rs |}.

(** [_get_expected_field_counts] *)
Definition _get_expected_field_counts : gmap Z Z :=
  <[1 := 15]> (<[2 := 50]> (<[3 := 40]> (<[4 := 60]> (<[5 := 70]> ∅)))).

(** The lookup [expected_fields.get(query_type, 50)] spelled out. *)
Definition expected_field_count (query_type : Z) : Z :=
  if decide (query_type = 1) then 15
  else if decide (query_type = 2) then 50
  else if decide (query_type = 3) then 40
  else if decide (query_type = 4) then 60
  else if decide (query_type = 5) then 70
  else 50.

(** The second result of [test_comparison_with_errors]: a timed-out
    extraction. *)
Definition timed_out_result : ExtractionResult :=
  {| model := "claude-haiku"; query_type := 1; query_name := "Basic";
     extracted_data := None; raw_response := "";
     prompt_tokens := 0; completion_tokens := 0; total_tokens := 0;
     extraction_time := 1 # 2; cost_usd := 0;
     error := Some "Timeout"; metadata := [] |}.

(** The three results of [test_compare_single_query_results]. *)
Definition sonnet_result : ExtractionResult :=
  {| model := "claude-sonnet"; query_type := 1; query_name := "Basic";
     extracted_data := Some (JDict [("a", JInt 1); ("b", JInt 2); ("c", JInt 3)]);
     raw_response := "";
     prompt_tokens := 1000; completion_tokens := 500; total_tokens := 1500;
     extraction_time := 5; cost_usd := 5 # 100;
     error := None; metadata := [] |}.

Definition haiku_result : ExtractionResult :=
  {| model := "claude-haiku"; query_type := 1; query_name := "Basic";
     extracted_data := Some (JDict [("a", JInt 1); ("b", JInt 2)]);
     raw_response := "";
     prompt_tokens := 1000; completion_tokens := 300; total_tokens := 1300;
     extraction_time := 2; cost_usd := 1 # 100;
     error := None; metadata := [] |}.

Definition gpt4_result : ExtractionResult :=
  {| model := "gpt-4"; query_type := 1; query_name := "Basic";
     extracted_data := Some (JDict [("a", JInt 1)]);
     raw_response := "";
     prompt_tokens := 1000; completion_tokens := 400; total_tokens := 1400;
     extraction_time := 4; cost_usd := 10 # 100;
     error := None; metadata := [] |}.

(** A failed extraction whose exception had an empty message: the error is
    set, to the empty string. *)
Definition silent_failure : ExtractionResult :=
  {| model := "claude-haiku"; query_type := 1; query_name := "Basic";
     extracted_data := None; raw_response := "";
     prompt_tokens := 0; completion_tokens := 0; total_tokens := 0;
     extraction_time := 1 # 2; cost_usd := 0;
     error := Some ""; metadata := [] |}.

(** A result for query type 1, which expects 15 fields, with twenty. *)
Definition twenty_fields_result : ExtractionResult :=
  {| model := "claude-sonnet"; query_type := 1; query_name := "Basic";
     extracted_data :=
       Some (JDict [("company", JStr "Acme");
                    ("executives",
                     JList (replicate 19 (JDict [("name", JStr "CEO")])))]);
     raw_response := "";
     prompt_tokens := 1000; completion_tokens := 500; total_tokens := 1500;
     extraction_time := 5; cost_usd := 5 # 100;
     error := None; metadata := [] |}.

(** [d.get(key, default)] *)
Definition dict_get {K V} `{Countable K} (d : gmap K V) (key : K) (dflt : V) : V :=
  default dflt (d !! key).

Section comparator.
Context `{Binary64}.

(** The body of the loop of [calculate_metrics] for one result. *)
Definition metrics_of (expected_fields : gmap Z Z) (result : ExtractionResult)
  : ComparisonMetrics :=
  let fields_extracted :=
    match extracted_data result with
    | Some data => if truthy data then _count_fields data "" else 0
    | None => 0
    end in
  let total_fields := dict_get expected_fields (query_type result) 50 in
  let completeness :=
    if (0 <? total_fields)%Z
    then Qmin (fdiv (inject_Z fields_extracted) (inject_Z total_fields)) 1
    else 0%Q in
  {| m_model := model result;
     m_query_type := query_type result;
     fields_extracted := fields_extracted;
     total_fields_possible := total_fields;
     completeness_score := completeness;
     m_extraction_time := extraction_time result;
     m_total_tokens := total_tokens result;
     m_cost_usd := cost_usd result;
     m_error := error result |}.

Definition calculate_metrics (self : ResultComparator) : list ComparisonMetrics :=
  let expected_fields := _get_expected_field_counts in
  foldl (λ metrics_list result, metrics_list ++ [metrics_of expected_fields result])
        [] (results self).

(** *** [generate_summary_stats] *)

Record SummaryStats : Type := {
  avg_completeness : Q;
  avg_time : Q;
  sum_total_tokens : Z;
  total_cost : Q;
  successful_extractions : Z;
  failed_extractions : Z;
}.

(** [m.model.split('-')[-1] if '-' in m.model else m.model] *)
Definition model_key (m : ComparisonMetrics) : string :=
  if contains "-" (m_model m)
  then List.last (split "-" (m_model m)) ""
  else m_model m.

(** The body of the grouping loop: a missing key starts an empty list, then
    the entry is appended to the list under its key. *)
Definition group_step (by_model : gmap string (list ComparisonMetrics))
    (m : ComparisonMetrics) : gmap string (list ComparisonMetrics) :=
  let key := model_key m in
  let by_model := match by_model !! key with
                  | None => <[key := []]> by_model
                  | Some _ => by_model
                  end in
  <[key := dict_get by_model key [] ++ [m]]> by_model.

Definition group_by_model (metrics : list ComparisonMetrics)
  : gmap string (list ComparisonMetrics) :=
  foldl group_step ∅ metrics.

(** [[m for m in model_metrics if not m.error]] *)
Definition successful_of (model_metrics : list ComparisonMetrics)
  : list ComparisonMetrics :=
  List.filter (λ m, negb (truthy_str (m_error m))) model_metrics.

Definition len {A} (l : list A) : Z := Z.of_nat (length l).

Definition stats_of (model_metrics successful : list ComparisonMetrics)
  : SummaryStats :=
  {| avg_completeness :=
       fdiv (fsum (completeness_score <$> successful)) (inject_Z (len successful));
     avg_time :=
       fdiv (fsum (m_extraction_time <$> successful)) (inject_Z (len successful));
     sum_total_tokens := foldl Z.add 0 (m_total_tokens <$> successful);
     total_cost := fsum (m_cost_usd <$> successful);
     successful_extractions := len successful;
     failed_extractions := len model_metrics - len successful |}.

Definition generate_summary_stats (self : ResultComparator)
  : gmap string SummaryStats :=
  let metrics := calculate_metrics self in
  match metrics with
  | [] => ∅
  | _ =>
      let by_model := group_by_model metrics in
      map_fold (λ model model_metrics (summary : gmap string SummaryStats),
                  let successful := successful_of model_metrics in
                  match successful with
                  | [] => summary
                  | _ => <[model := stats_of model_metrics successful]> summary
                  end)
               ∅ by_model
  end.

(** *** [compare_single_query_results] *)

(** [max(xs, key=key)]: the first item whose key no later item exceeds. *)
Definition py_max {A} (key : A → Q) (xs : list A) : outcome A :=
  match xs with
  | [] => Raised (Exn ValueError "max() arg is an empty sequence")
  | x :: xs' =>
      Returned (foldl (λ best item, if Qlt_le_dec (key best) (key item)
                                    then item else best) x xs')
  end.

(** [min(xs, key=key)] *)
Definition py_min {A} (key : A → Q) (xs : list A) : outcome A :=
  match xs with
  | [] => Raised (Exn ValueError "min() arg is an empty sequence")
  | x :: xs' =>
      Returned (foldl (λ best item, if Qlt_le_dec (key item) (key best)
                                    then item else best) x xs')
  end.

Record MetricsRow : Type := {
  row_model : string;
  row_completeness : Q;
  row_time : Q;
  row_cost : Q;
  row_tokens : Z;
}.

Record SingleQueryComparison : Type := {
  c_query_type : Z;
  models_compared : Z;
  c_metrics : list MetricsRow;
  best_by_completeness : string;
  best_by_cost : string;
  best_by_speed : string;
}.

Definition compare_single_query_results
    (rs : list ExtractionResult) (query_type : Z)
  : outcome SingleQueryComparison :=
  let comparator := add_results new_comparator rs in
  let metrics := calculate_metrics comparator in
  let rows := (λ m, {| row_model := m_model m;
                       row_completeness := completeness_score m;
                       row_time := m_extraction_time m;
                       row_cost := m_cost_usd m;
                       row_tokens := m_total_tokens m |}) <$> metrics in
  match py_max completeness_score metrics with
  | Raised e => Raised e
  | Returned best_completeness =>
      match py_min m_cost_usd metrics with
      | Raised e => Raised e
      | Returned best_cost =>
          match py_min m_extraction_time metrics with
          | Raised e => Raised e
          | Returned best_speed =>
              Returned {| c_query_type := query_type;
                          models_compared := len rs;
                          c_metrics := rows;
                          best_by_completeness := m_model best_completeness;
                          best_by_cost := m_model best_cost;
                          best_by_speed := m_model best_speed |}
          end
      end
  end.
End comparator.

End Compare.

(** ** The parser *)

Module Parser.

Inductive ParsingStrategy : Type := HI_RES | FAST | OCR_ONLY | AUTO.

Definition ParsingStrategy_value (s : ParsingStrategy) : string :=
  match s with
  | HI_RES => "hi_res"
  | FAST => "fast"
  | OCR_ONLY => "ocr_only"
  | AUTO => "auto"
  end.

(** [ParseResult]; an element is a dictionary, kept as its entries. *)
Record ParseResult : Type := {
  file_path : string;
  strategy : ParsingStrategy;
  text : string;
  elements : option (list (list (string * json)));
  metadata : option (list (string * Z));
  parse_time : Q;
  token_count : option Z;
  error : option string;
}.

(** The result every failure path builds: empty text, the defaults of the
    dataclass, the elapsed time and the error. *)
Definition ParseResult_failed (file_path : string) (strategy : ParsingStrategy)
    (elapsed : Q) (error_msg : string) : ParseResult :=
  {| file_path := file_path; strategy := strategy; text := "";
     elements := None; metadata := None; parse_time := elapsed;
     token_count := None; error := Some error_msg |}.

(** An element of a response of the partition service: the attributes the
    parser probes with [hasattr]. *)
Record Element : Type := {
  el_type : option string;
  el_text : option string;
  el_metadata : option json;
}.

Record PartitionResponse : Type := { resp_elements : option (list Element) }.

(** An element of the local library: [type(e).__name__] and [str(e)]. *)
Record LocalElement : Type := { le_type_name : string; le_str : string }.

(** [PDFParser]: whether [self.client] was created. *)
Record PDFParser : Type := { client : bool }.

(** [sep.join(parts)] *)
Fixpoint join (sep : string) (parts : list string) : string :=
  match parts with
  | [] => ""
  | [part] => part
  | part :: rest => part +:+ sep +:+ join sep rest
  end.

Definition is_space (c : ascii) : bool :=
  let n := nat_of_ascii c in
  (n =? 32)%nat || ((9 <=? n)%nat && (n <=? 13)%nat).

(** [s.strip()] is empty. *)
Fixpoint is_blank (s : string) : bool :=
  match s with
  | EmptyString => true
  | String c rest => is_space c && is_blank rest
  end.

(** [path.name] *)
Definition path_name (path : string) : string := List.last (split "/" path) "".

(** [len(full_text) // 4] *)
Definition estimate_tokens (full_text : string) : Z :=
  Z.of_nat (String.length full_text) / 4.

Definition blank_line : string := newline +:+ newline.

Definition lift {A} (o : outcome A) : M A := λ s, (o, s).

Section parser.
Context `{Binary64}.

(** The configuration, the delay of the event loop, whether the client
    library was importable, and the world the parser calls into: the file
    system, the partition service (for the n-th request it receives, the time
    it takes and how it ends) and the local library. *)
Variable settings : Settings.
Variable lag : Q.
Variable UNSTRUCTURED_AVAILABLE : bool.
Variable file_exists : string → bool.
Variable read_file : string → outcome string.
Variable stat_size : string → outcome Z.
Variable partition :
  string → string → ParsingStrategy → nat → Q * outcome PartitionResponse.
Variable import_partition_pdf : outcome unit.
Variable partition_pdf : string → ParsingStrategy → nat → Q * outcome (list LocalElement).

(** [PDFParser.__init__] *)
Definition PDFParser_init (api_key : option string) (rate_limit : option Z)
  : outcome (PDFParser * RateLimiter) :=
  let rpm := match rate_limit with
             | Some r => if decide (r = 0) then unstructured_rpm settings else r
             | None => unstructured_rpm settings
             end in
  match RateLimiter_init rpm with
  | Returned l =>
      let api_key := if truthy_str api_key then api_key
                     else unstructured_api_key settings in
      Returned ({| client := UNSTRUCTURED_AVAILABLE && truthy_str api_key |}, l)
  | Raised e => Raised e
  end.

(** The retry condition of [_parse_with_api]. *)
Definition retry_if_transient (e : exn) : bool :=
  match exn_class_of e with
  | TimeoutError => true
  | SDKError => UNSTRUCTURED_AVAILABLE
  | _ => false
  end.

(** The loop over [response.elements]: the element dictionaries and the
    texts that are not empty. *)
Definition collect_elements (response : PartitionResponse)
  : list (list (string * json)) * list string :=
  match resp_elements response with
  | Some (first :: others) =>
      foldl (λ '(elements, full_text_parts) element,
               let elem_text := default "" (el_text element) in
               let elem_dict :=
                 [("type", match el_type element with
                           | Some ty => JStr ty
                           | None => JNull
                           end);
                  ("text", JStr elem_text);
                  ("metadata", default (JDict []) (el_metadata element))] in
               (elements ++ [elem_dict],
                if String.eqb elem_text "" then full_text_parts
                else full_text_parts ++ [elem_text]))
            ([], []) (first :: others)
  | _ => ([], [])
  end.

(** The body of [_parse_with_api], one attempt. *)
Definition _parse_with_api_attempt (self : PDFParser) (file_path : string)
    (strategy : ParsingStrategy) : M ParseResult :=
  if negb (client self)
  then raise (Exn RuntimeError "Unstructured API client not initialized")
  else
    let! _ := acquire lag in
    let! start_time := time_time in
    try_except
      (let! file_content := lift (read_file file_path) in
       let! response :=
         wait_for (partition (path_name file_path) file_content strategy)
                  (inject_Z (api_timeout settings)) in
       let! finished := time_time in
       let parse_time := fsub finished start_time in
       let '(elements, full_text_parts) := collect_elements response in
       let full_text := join blank_line full_text_parts in
       let token_count := estimate_tokens full_text in
       let! file_size := lift (stat_size file_path) in
       ret {| file_path := file_path;
              strategy := strategy;
              text := full_text;
              elements := Some elements;
              metadata := Some [("num_elements", Z.of_nat (length elements));
                                ("file_size", file_size)];
              parse_time := parse_time;
              token_count := Some token_count;
              error := None |})
      (λ e,
         let! failed := time_time in
         ret (ParseResult_failed file_path strategy (fsub failed start_time) (exn_str e))).

(** [_parse_with_api] as decorated. *)
Definition _parse_with_api (self : PDFParser) (file_path : string)
    (strategy : ParsingStrategy) : M ParseResult :=
  retry lag 3 retry_if_transient (_parse_with_api_attempt self file_path strategy).

Definition is_import_error (e : exn) : bool :=
  match exn_class_of e with ImportError => true | _ => false end.

Definition _parse_local (self : PDFParser) (file_path : string)
    (strategy : ParsingStrategy) : M ParseResult :=
  let! start_time := time_time in
  try_except
    (let! _ := lift import_partition_pdf in
     let! elements := run_in_executor (partition_pdf file_path strategy) in
     let! finished := time_time in
     let parse_time := fsub finished start_time in
     let text_parts :=
       le_str <$> List.filter (λ elem, negb (is_blank (le_str elem))) elements in
     let full_text := join blank_line text_parts in
     let token_count := estimate_tokens full_text in
     ret {| file_path := file_path;
            strategy := strategy;
            text := full_text;
            elements := Some ((λ e, [("type", JStr (le_type_name e));
                                     ("text", JStr (le_str e))]) <$> elements);
            metadata := Some [("num_elements", Z.of_nat (length elements))];
            parse_time := parse_time;
            token_count := Some token_count;
            error := None |})
    (λ e,
       if is_import_error e then
         let error_msg := "Local parsing requires: pip install unstructured[pdf]" in
         let! failed := time_time in
         ret (ParseResult_failed file_path strategy (fsub failed start_time) error_msg)
       else
         let! failed := time_time in
         ret (ParseResult_failed file_path strategy (fsub failed start_time) (exn_str e))).

Definition parse (self : PDFParser) (file_path : string) (strategy : ParsingStrategy)
    (use_api : bool) : M ParseResult :=
  if negb (file_exists file_path) then
    ret {| file_path := file_path; strategy := strategy; text := "";
           elements := None; metadata := None; parse_time := 0;
           token_count := None; error := Some "File not found" |}
  else if use_api && client self then _parse_with_api self file_path strategy
  else _parse_local self file_path strategy.

(** What a result of the remote path is, by what the file system and the
    service did: every failure is in [error], as [str(e)], and the result is
    a success only if nothing failed. *)
Definition remote_post (file : string) (strategy : ParsingStrategy) (s : State)
    (pr : ParseResult) : Prop :=
  (∀ e, read_file file = Raised e → pr.(error) = Some (exn_str e)) ∧
  (∀ content d o,
     read_file file = Returned content →
     partition (path_name file) content strategy (calls s) = (d, o) →
     ((inject_Z (api_timeout settings) < d)%Q → pr.(error) = Some "") ∧
     ((d <= inject_Z (api_timeout settings))%Q →
      match o with
      | Raised e => pr.(error) = Some (exn_str e)
      | Returned response =>
          match stat_size file with
          | Raised e => pr.(error) = Some (exn_str e)
          | Returned _ =>
              pr.(error) = None ∧
              pr.(text) = join blank_line (collect_elements response).2 ∧
              pr.(token_count) = Some (estimate_tokens pr.(text))
          end
      end)).

(** The same for the local path. *)
Definition local_post (file : string) (strategy : ParsingStrategy) (s : State)
    (pr : ParseResult) : Prop :=
  let message_of e :=
    if is_import_error e
    then "Local parsing requires: pip install unstructured[pdf]"
    else exn_str e in
  match import_partition_pdf with
  | Raised e => pr.(error) = Some (message_of e)
  | Returned _ =>
      match (partition_pdf file strategy (calls s)).2 with
      | Raised e => pr.(error) = Some (message_of e)
      | Returned local_elements =>
          pr.(error) = None ∧
          pr.(text) = join blank_line
                        (le_str <$> List.filter (λ elem, negb (is_blank (le_str elem)))
                                                local_elements) ∧
          pr.(token_count) = Some (estimate_tokens pr.(text))
      end
  end.

(** The shape of every result: an error comes with empty text and neither
    elements nor a token count; a success has elements and a token count. *)
Definition shaped (pr : ParseResult) : Prop :=
  match pr.(error) with
  | Some _ => pr.(text) = "" ∧ pr.(elements) = None ∧ pr.(token_count) = None
  | None => pr.(elements) ≠ None ∧ pr.(token_count) ≠ None
  end.

(** The invariant of [ParseResult]: [error] is set exactly when the text is
    empty and there are neither elements nor a token count. *)
Definition ParseResult_inv (pr : ParseResult) : Prop :=
  pr.(error) ≠ None ↔
  pr.(text) = "" ∧ pr.(elements) = None ∧ pr.(token_count) = None.

End parser.

(** A world for the examples: every file exists and can be read, the
    partition service hangs for 130 seconds on its first request, the local
    library is not installed. *)
Definition service_hangs (file_name content : string) (strategy : ParsingStrategy)
    (n : nat) : Q * outcome PartitionResponse :=
  (130%Q, Returned {| resp_elements := None |}).

Definition not_installed : outcome unit :=
  Raised (Exn ImportError "No module named 'unstructured'").

Definition no_local_library (file : string) (strategy : ParsingStrategy) (n : nat)
  : Q * outcome (list LocalElement) :=
  (0%Q, Raised (Exn ImportError "No module named 'unstructured'")).

(** The clock at 1000 seconds and a fresh limiter at 30 requests per minute. *)
Definition parser_state : State :=
  {| now := 1000; calls := 0;
     limiter := {| requests_per_minute := 30; min_interval := 60 / 30;
                   last_request_time := 0 |} |}.

(** *** [parse_batch] *)

(** [asyncio.gather] with [return_exceptions=True] over [n] tasks: each
    task, when it completes, leaves what it returned or raised in the slot of
    its position; the call returns the slots once all are filled. *)
Definition gather {A} (n : nat) (completions : list (nat * outcome A))
  : option (list (outcome A)) :=
  let slots := foldl (λ slots '(i, o), <[i := Some o]> slots)
                     (replicate n None) completions in
  mapM id slots.

(** The loop over [enumerate(results)]; [results] is as long as
    [file_paths], so [file_paths[i]] is always in range. *)
Definition handle_exceptions (file_paths : list string) (strategy : ParsingStrategy)
    (results : list (outcome ParseResult)) : list ParseResult :=
  foldl (λ parsed_results '(i, result),
           match result with
           | Raised e =>
               parsed_results ++
                 [{| file_path := default "" (file_paths !! i);
                     strategy := strategy; text := "";
                     elements := None; metadata := None; parse_time := 0;
                     token_count := None; error := Some (exn_str e) |}]
           | Returned r => parsed_results ++ [r]
           end)
        [] (imap (λ i result, (i, result)) results).

(** [parse_batch], given in [completions] what each parsing task returned or
    raised, in the order in which the tasks completed; [None] while a task is
    still running.  The semaphore bounds how many tasks run at a time and
    has no part in what they leave in their slots. *)
Definition parse_batch (file_paths : list string) (strategy : ParsingStrategy)
    (completions : list (nat * outcome ParseResult)) : option (list ParseResult) :=
  handle_exceptions file_paths strategy <$> gather (length file_paths) completions.

(** The batch of the design document: three files, the second of which makes
    its parsing task raise; the third task completes first, the first last. *)
Definition parsed (file : string) (content : string) : ParseResult :=
  {| file_path := file; strategy := HI_RES; text := content;
     elements := Some []; metadata := Some [("num_elements", 0)];
     parse_time := 1; token_count := Some (estimate_tokens content);
     error := None |}.

Definition three_files : list string := ["a.pdf"; "b.pdf"; "c.pdf"].

Definition three_outcomes : list (outcome ParseResult) :=
  [Returned (parsed "a.pdf" "alpha"); Raised (Exn OtherException "disk unplugged");
   Returned (parsed "c.pdf" "gamma")].

Definition three_completions : list (nat * outcome ParseResult) :=
  [(2%nat, Returned (parsed "c.pdf" "gamma"));
   (1%nat, Raised (Exn OtherException "disk unplugged"));
   (0%nat, Returned (parsed "a.pdf" "alpha"))].

End Parser.

(** ** Tasks sharing a rate limiter *)

Module Tasks.






Section tasks.
Context `{Binary64}.




End tasks.







End Tasks.

(** ** More of the comparator *)

Module Compare_more.
Import Extractors Compare.


End Compare_more.

(** ** More of the extractors *)

Module Extractors_more.
Import Extractors.

(** What every result of an extractor looks like: it names the extractor's
    model and the query it was asked; with an error it has no data, no raw
    response, no tokens and no cost; without one its cost is the cost of its
    token counts. *)
Definition result_shape `{Binary64} (name : string) (qt : Z) (qn : string)
    (r : ExtractionResult) : Prop :=
  model r = name ∧ query_type r = qt ∧ query_name r = qn ∧
  match error r with
  | Some _ =>
      extracted_data r = None ∧ raw_response r = "" ∧
      prompt_tokens r = 0 ∧ completion_tokens r = 0 ∧ total_tokens r = 0 ∧
      cost_usd r = 0%Q ∧ metadata r = []
  | None =>
      cost_usd r = _calculate_cost (prompt_tokens r) (completion_tokens r) name
  end.

End Extractors_more.

(** ** The element dictionaries of a parse result *)

Module Parser_more.
Import Parser.

(** [elem_dict], the dictionary the loop of [_parse_with_api] builds for one
    element of the response. *)
Definition elem_dict (element : Element) : list (string * json) :=
  [("type", match el_type element with
            | Some ty => JStr ty
            | None => JNull
            end);
   ("text", JStr (default "" (el_text element)));
   ("metadata", default (JDict []) (el_metadata element))].

(** The texts of the elements that have one, in the order of the response. *)
Definition element_texts (els : list Element) : list string :=
  List.filter (λ t, negb (String.eqb t "")) ((λ e, default "" (el_text e)) <$> els).

(** A service that answers at once with a title, an element without text and
    a paragraph. *)
Definition two_paragraphs : PartitionResponse :=
  {| resp_elements :=
       Some [ {| el_type := Some "Title"; el_text := Some "Report";
                 el_metadata := None |};
              {| el_type := Some "Image"; el_text := None; el_metadata := None |};
              {| el_type := None; el_text := Some "Pay rose."; el_metadata := None |} ] |}.

Definition service_answers (file_name content : string) (strategy : ParsingStrategy)
    (n : nat) : Q * outcome PartitionResponse :=
  (2%Q, Returned two_paragraphs).

End Parser_more.

(** ** The extraction loop of the command line *)

Module Main.
Import Extractors.

(** The table of [get_query_name]. *)
Definition names : gmap Z string :=
  <[1 := "Basic Compensation"]>
    (<[2 := "Detailed Compensation"]>
       (<[3 := "Equity Plans"]>
          (<[4 := "KPI Metrics"]>
             (<[5 := "Policies & Governance"]> ∅)))).

(** [get_query_name]: [names.get(query_type, f"Query {query_type}")]. *)
Definition get_query_name (query_type : Z) : string :=
  default ("Query " +:+ pretty query_type) (names !! query_type).

(** The table of [load_prompt]. *)
Definition query_files : gmap Z string :=
  <[1 := "1_basic_compensation.txt"]>
    (<[2 := "2_detailed_compensation.txt"]>
       (<[3 := "3_equity_plans.txt"]>
          (<[4 := "4_kpi_metrics.txt"]>
             (<[5 := "5_policies_governance.txt"]> ∅)))).

(** A [BaseExtractor]: one of its two subclasses. *)
Inductive Extractor : Type :=
  | Claude (extractor : ClaudeExtractor)
  | OpenAI (extractor : OpenAIExtractor).

(** [extractor.model_name] *)
Definition model_name (extractor : Extractor) : string :=
  match extractor with
  | Claude e => ce_model_name e
  | OpenAI e => oe_model_name e
  end.

Section main.
Context `{Binary64}.

(** The configuration and the world of the extractors, and the directory of
    the prompt templates: which files exist and what reading one gives. *)
Variable settings : Settings.
Variable lag : Q.
Variable json_loads : string → option json.
Variable search_code_block : string → option string.
Variable search_braces : string → option string.
Variable messages_create : string → Z → string → nat → Q * outcome ClaudeResponse.
Variable chat_completions_create :
  string → Z → string → string → nat → Q * outcome OpenAIResponse.
Variable prompts_dir : string.
Variable exists_ : string → bool.
Variable read_text : string → outcome string.

(** [load_prompt]; the [FileNotFoundError] is an exception of another
    class. *)
Definition load_prompt (query_type : Z) : outcome string :=
  match query_files !! query_type with
  | None =>
      Raised (Exn ValueError
                ("Invalid query type: " +:+ pretty query_type +:+ ". Must be 1-5."))
  | Some file_name =>
      let prompt_file := prompts_dir +:+ "/" +:+ file_name in
      if negb (exists_ prompt_file)
      then Raised (Exn OtherException ("Prompt file not found: " +:+ prompt_file))
      else read_text prompt_file
  end.

(** [create_extractor]: the extractor and the rate limiter it is built
    with.  The three model types are all there are, so the [ValueError] of
    the last branch is never raised. *)
Definition create_extractor (model_type : ModelType)
  : outcome (Extractor * RateLimiter) :=
  match model_type with
  | CLAUDE_SONNET | CLAUDE_HAIKU =>
      match ClaudeExtractor_init settings model_type None with
      | Returned (extractor, l) => Returned (Claude extractor, l)
      | Raised e => Raised e
      end
  | GPT4_MODEL =>
      match OpenAIExtractor_init settings None None with
      | Returned (extractor, l) => Returned (OpenAI extractor, l)
      | Raised e => Raised e
      end
  end.

(** What the loops leave for one extraction: a result that names the query
    and the model of a new extractor of the type. *)
Definition extraction_of (query_type : Z) (model_type : ModelType)
    (r : ExtractionResult) : Prop :=
  Extractors.query_type r = query_type ∧
  Extractors.query_name r = get_query_name query_type ∧
  ∃ extractor l, create_extractor model_type = Returned (extractor, l) ∧
                 model r = model_name extractor.

(** [extractor.extract(...)], by the class of the extractor. *)
Definition extract (extractor : Extractor) (text prompt : string) (query_type : Z)
    (query_name : string) : M ExtractionResult :=
  match extractor with
  | Claude e =>
      ClaudeExtractor_extract settings lag json_loads search_code_block
        search_braces messages_create e text prompt query_type query_name
  | OpenAI e =>
      OpenAIExtractor_extract settings lag json_loads search_code_block
        search_braces chat_completions_create e text prompt query_type query_name
  end.

(** The inner loop of [_compare] in [compare]: for each model type a new
    extractor, whose [extract] runs on the rate limiter the extractor was
    built with, and the result appended. *)
Fixpoint for_model_types (model_types : list ModelType) (text prompt : string)
    (query_type : Z) (query_name : string) (results : list ExtractionResult)
  : M (list ExtractionResult) :=
  match model_types with
  | [] => ret results
  | model_type :: rest =>
      let! created := Parser.lift (create_extractor model_type) in
      let! _ := put_limiter created.2 in
      let! result := extract created.1 text prompt query_type query_name in
      for_model_types rest text prompt query_type query_name (results ++ [result])
  end.

(** The outer loop: for each query its prompt and its name, then the
    models. *)
Fixpoint for_query_list (query_list : list Z) (model_types : list ModelType)
    (text : string) (results : list ExtractionResult) : M (list ExtractionResult) :=
  match query_list with
  | [] => ret results
  | query_type :: rest =>
      let! prompt := Parser.lift (load_prompt query_type) in
      let query_name := get_query_name query_type in
      let! results := for_model_types model_types text prompt query_type query_name
                        results in
      for_query_list rest model_types text results
  end.

(** The extractions of [_compare], from [results = []] to [return results]. *)
Definition run_extractions (text : string) (query_list : list Z)
    (model_types : list ModelType) : M (list ExtractionResult) :=
  for_query_list query_list model_types text [].

End main.

(** The extractions in the order in which the loops make them. *)
Definition extractions (query_list : list Z) (model_types : list ModelType)
  : list (Z * ModelType) :=
  query_type ← query_list; (λ model_type, (query_type, model_type)) <$> model_types.

(** A world for the examples: the prompts are there, and both backends
    answer at once. *)
Definition answers_at_once (model : string) (max_tokens : Z) (user_message : string)
    (n : nat) : Q * outcome ClaudeResponse :=
  (0%Q, Returned answer).

Definition completes_at_once (model : string) (max_tokens : Z) (prompt text : string)
    (n : nat) : Q * outcome OpenAIResponse :=
  (0%Q, Returned {| choices := [{| message_content := Some "{}";
                                   finish_reason := Some "stop" |}];
                    usage_prompt_tokens := 1000; usage_completion_tokens := 500;
                    usage_total_tokens := 1500 |}).

End Main.

(** * Properties *)

(** ** Floating point *)

Section rounding_facts.

(** The nearest integer is the floor or the one above it. *)
Lemma round_half_even_range (q : Q) :
  Qfloor q ≤ round_half_even q ≤ Qfloor q + 1.
Proof.
  unfold round_half_even. destruct (_ ?= _)%Q; [destruct (Z.even _)|..]; lia.
Qed.

(** Rounding to the nearest integer keeps the order. *)
Lemma round_half_even_mono (x y : Q) :
  (x <= y)%Q → round_half_even x ≤ round_half_even y.
Proof.
  intros Hxy. pose proof (Qfloor_resp_le _ _ Hxy) as Hfl.
  destruct (decide (Qfloor x = Qfloor y)) as [Heq|Hne].
  - unfold round_half_even. rewrite <- Heq.
    destruct (x - inject_Z (Qfloor x) ?= 1 # 2)%Q eqn:Cx;
      destruct (y - inject_Z (Qfloor x) ?= 1 # 2)%Q eqn:Cy;
      try (destruct (Z.even (Qfloor x)); lia); try lia; exfalso.
    + apply Qeq_alt in Cx. apply Qlt_alt in Cy. lra.
    + apply Qgt_alt in Cx. apply Qeq_alt in Cy. lra.
    + apply Qgt_alt in Cx. apply Qlt_alt in Cy. lra.
  - pose proof (round_half_even_range x). pose proof (round_half_even_range y). lia.
Qed.


Lemma two_to_pos (e : Z) : (0 < 2 ^ e)%Q.
Proof. by apply Qpower_0_lt. Qed.

Lemma two_to_succ (e : Z) : (2 ^ (e + 1) == 2 * 2 ^ e)%Q.
Proof. rewrite Qpower_plus by done. change (2 ^ 1)%Q with 2%Q. ring. Qed.

Lemma two_to_log2 (n : Z) :
  0 < n → (2 ^ Z.log2 n <= inject_Z n)%Q ∧ (inject_Z n < 2 * 2 ^ Z.log2 n)%Q.
Proof.
  intros Hn. destruct (Z.log2_spec n Hn) as [Hlo Hhi].
  pose proof (Z.log2_nonneg n) as Hnn.
  rewrite <- two_to_succ.
  change 2%Q with (inject_Z 2).
  rewrite <- !Zpower_Qpower by lia. rewrite <- Zle_Qle, <- Zlt_Qlt.
  split; [exact Hlo|]. by rewrite <- Z.add_1_r in Hhi.
Qed.

Lemma binary_exponent_spec (x : Q) :
  (0 < x)%Q →
  (2 ^ binary_exponent x <= x)%Q ∧ (x < 2 * 2 ^ binary_exponent x)%Q.
Proof.
  intros Hx. unfold binary_exponent.
  set (ln := Z.log2 (Qnum x)). set (ld := Z.log2 (Z.pos (Qden x))).
  assert (Hn : 0 < Qnum x).
  { destruct x as [n d]. unfold Qlt in Hx. simpl in *. lia. }
  destruct (two_to_log2 (Qnum x) Hn) as [Hn1 Hn2].
  destruct (two_to_log2 (Z.pos (Qden x)) ltac:(lia)) as [Hd1 Hd2].
  fold ln in Hn1, Hn2. fold ld in Hd1, Hd2.
  pose proof (two_to_pos ln) as Ha. pose proof (two_to_pos ld) as Hb.
  assert (Hxd : (x * inject_Z (Z.pos (Qden x)) == inject_Z (Qnum x))%Q).
  { destruct x as [n d]. cbn [Qnum Qden]. rewrite (Qmake_Qdiv n d). field.
    discriminate. }
  assert (Hsplit : (2 ^ (ln - ld) * 2 ^ ld == 2 ^ ln)%Q).
  { rewrite <- Qpower_plus by done. by replace (ln - ld + ld) with ln by lia. }
  assert (Hpred : (2 * 2 ^ (ln - ld - 1) == 2 ^ (ln - ld))%Q).
  { rewrite <- two_to_succ. by replace (ln - ld - 1 + 1) with (ln - ld) by lia. }
  pose proof (two_to_pos (ln - ld)) as Hc.
  pose proof (two_to_pos (ln - ld - 1)) as Hc'.
  destruct (Qle_bool (2 ^ (ln - ld)) x) eqn:Hcmp.
  - apply Qle_bool_iff in Hcmp. split; [exact Hcmp|].
    revert Hn1 Hn2 Hd1 Hd2 Ha Hb Hxd Hsplit Hc Hcmp.
    generalize (2 ^ (ln - ld))%Q (2 ^ ln)%Q (2 ^ ld)%Q (inject_Z (Qnum x))
      (inject_Z (Z.pos (Qden x))).
    intros c a b n d Hn1 Hn2 Hd1 Hd2 Ha Hb Hxd Hsplit Hc Hcmp.
    apply Qnot_le_lt. intros Hge.
    assert (H1 : (2 * c * d <= x * d)%Q) by (apply Qmult_le_compat_r; lra).
    assert (H2 : (2 * c * b <= 2 * c * d)%Q) by (apply Qmult_le_l; lra).
    lra.
  - assert (Hlt : (x < 2 ^ (ln - ld))%Q).
    { apply Qnot_le_lt. intros Hle. apply Qle_bool_iff in Hle. congruence. }
    split; [|lra].
    revert Hn1 Hn2 Hd1 Hd2 Ha Hb Hxd Hsplit Hpred Hc Hc' Hlt.
    generalize (2 ^ (ln - ld - 1))%Q (2 ^ (ln - ld))%Q (2 ^ ln)%Q (2 ^ ld)%Q
      (inject_Z (Qnum x)) (inject_Z (Z.pos (Qden x))).
    intros c' c a b n d Hn1 Hn2 Hd1 Hd2 Ha Hb Hxd Hsplit Hpred Hc Hc' Hlt.
    apply Qnot_lt_le. intros Hsmall.
    assert (H1 : (x * d <= c' * d)%Q) by (apply Qmult_le_compat_r; lra).
    assert (H2 : (c' * d < c' * (2 * b))%Q) by (apply Qmult_lt_l; lra).
    assert (H3 : (2 * c' * b == c * b)%Q) by (rewrite Hpred; reflexivity).
    lra.
Qed.

Lemma binary_exponent_le (x y : Q) :
  (0 < x)%Q → (x <= y)%Q → binary_exponent x ≤ binary_exponent y.
Proof.
  intros Hx Hxy.
  destruct (binary_exponent_spec x Hx) as [Hx1 _].
  destruct (binary_exponent_spec y ltac:(lra)) as [_ Hy2].
  rewrite <- two_to_succ in Hy2.
  assert (Hlt : (2 ^ binary_exponent x < 2 ^ (binary_exponent y + 1))%Q) by lra.
  apply Qpower_lt_compat_l_inv in Hlt; [lia|reflexivity].
Qed.

(** The nearest integer is within a half. *)
Lemma round_half_even_error (q : Q) :
  (q - (1 # 2) <= inject_Z (round_half_even q))%Q ∧
  (inject_Z (round_half_even q) <= q + (1 # 2))%Q.
Proof.
  pose proof (Qfloor_le q) as Hlo. pose proof (Qlt_floor q) as Hhi.
  rewrite inject_Z_plus in Hhi. change (inject_Z 1) with 1%Q in Hhi.
  unfold round_half_even.
  destruct (q - inject_Z (Qfloor q) ?= 1 # 2)%Q eqn:Hc.
  - apply Qeq_alt in Hc.
    destruct (Z.even (Qfloor q)); rewrite ?inject_Z_plus;
      change (inject_Z 1) with 1%Q; lra.
  - apply Qlt_alt in Hc. lra.
  - apply Qgt_alt in Hc. rewrite inject_Z_plus. change (inject_Z 1) with 1%Q. lra.
Qed.

(** The significand of a positive number, scaled to 53 bits. *)
Lemma scaled_range (x : Q) :
  (0 < x)%Q →
  let s := (2 ^ (52 - binary_exponent x))%Q in
  (0 < s)%Q ∧ (2 ^ binary_exponent x * s == 2 ^ 52)%Q ∧
  (2 ^ 52 <= x * s)%Q ∧ (x * s < 2 * 2 ^ 52)%Q ∧
  (2 ^ 52 <= inject_Z (round_half_even (x * s)))%Q ∧
  (inject_Z (round_half_even (x * s)) <= 2 * 2 ^ 52)%Q.
Proof.
  intros Hx s.
  destruct (binary_exponent_spec x Hx) as [Hlo Hhi].
  assert (Hs : (0 < s)%Q) by apply two_to_pos.
  assert (Hes : (2 ^ binary_exponent x * s == 2 ^ 52)%Q).
  { unfold s. rewrite <- Qpower_plus by done.
    by replace (binary_exponent x + (52 - binary_exponent x)) with 52 by lia. }
  assert (Hz1 : (2 ^ 52 <= x * s)%Q).
  { rewrite <- Hes. apply Qmult_le_compat_r; lra. }
  assert (Hz2 : (x * s < 2 * 2 ^ 52)%Q).
  { rewrite <- Hes, Qmult_assoc. apply Qmult_lt_r; lra. }
  split; [exact Hs|]. split; [exact Hes|]. split; [exact Hz1|]. split; [exact Hz2|].
  pose proof (round_half_even_range (x * s)) as [Hr1 Hr2].
  assert (Hf1 : 2 ^ 52 ≤ Qfloor (x * s)).
  { rewrite <- (Qfloor_Z (2 ^ 52)). apply Qfloor_resp_le.
    rewrite Zpower_Qpower by lia. exact Hz1. }
  assert (Hf2 : Qfloor (x * s) < 2 * 2 ^ 52).
  { rewrite Zlt_Qlt. apply Qle_lt_trans with (x * s)%Q; [apply Qfloor_le|].
    rewrite inject_Z_mult, Zpower_Qpower by lia. exact Hz2. }
  split.
  - rewrite <- (Zpower_Qpower 2 52) by lia. rewrite <- Zle_Qle. lia.
  - change 2%Q with (inject_Z 2) at 1. rewrite <- (Zpower_Qpower 2 52) by lia.
    rewrite <- inject_Z_mult, <- Zle_Qle. lia.
Qed.

Lemma round_to_precision_eq (x : Q) :
  (round_to_precision 53 x
   == inject_Z (round_half_even (x * 2 ^ (52 - binary_exponent x)))
      / 2 ^ (52 - binary_exponent x))%Q.
Proof. unfold round_to_precision. rewrite Qred_correct. reflexivity. Qed.

(** A positive number rounds to a number of its binade, within a relative
    error of [2^-53]. *)
Lemma round_to_precision_spec (x : Q) :
  (0 < x)%Q →
  (2 ^ binary_exponent x <= round_to_precision 53 x)%Q ∧
  (round_to_precision 53 x <= 2 * 2 ^ binary_exponent x)%Q ∧
  (x - unit_roundoff * x <= round_to_precision 53 x)%Q ∧
  (round_to_precision 53 x <= x + unit_roundoff * x)%Q.
Proof.
  intros Hx. rewrite round_to_precision_eq.
  destruct (scaled_range x Hx) as (Hs & Hes & Hz1 & Hz2 & Hr1 & Hr2).
  destruct (round_half_even_error (x * 2 ^ (52 - binary_exponent x))) as [He1 He2].
  revert Hs Hes Hz1 Hz2 Hr1 Hr2 He1 He2.
  generalize (inject_Z (round_half_even (x * 2 ^ (52 - binary_exponent x)))).
  generalize (2 ^ (52 - binary_exponent x))%Q.
  generalize (2 ^ binary_exponent x)%Q.
  change (2 ^ 52)%Q with (4503599627370496 # 1)%Q.
  unfold unit_roundoff. change (2 ^ 53)%positive with 9007199254740992%positive.
  intros b s r Hs Hes Hz1 Hz2 Hr1 Hr2 He1 He2.
  assert (Hs' : ¬ (s == 0)%Q) by lra.
  repeat split.
  - apply Qle_shift_div_l; [exact Hs|]. lra.
  - apply Qle_shift_div_r; [exact Hs|]. lra.
  - apply Qle_shift_div_l; [exact Hs|]. lra.
  - apply Qle_shift_div_r; [exact Hs|]. lra.
Qed.

Lemma round_to_precision_mono (x y : Q) :
  (0 < x)%Q → (x <= y)%Q →
  (round_to_precision 53 x <= round_to_precision 53 y)%Q.
Proof.
  intros Hx Hxy.
  assert (Hy : (0 < y)%Q) by lra.
  pose proof (binary_exponent_le x y Hx Hxy) as He.
  destruct (decide (binary_exponent x = binary_exponent y)) as [Heq|Hne].
  - rewrite !round_to_precision_eq, Heq.
    pose proof (two_to_pos (52 - binary_exponent y)) as Hs.
    unfold Qdiv. apply Qmult_le_compat_r.
    + rewrite <- Zle_Qle. apply round_half_even_mono.
      apply Qmult_le_compat_r; lra.
    + apply Qlt_le_weak, Qinv_lt_0_compat, Hs.
  - destruct (round_to_precision_spec x Hx) as (_ & Hx2 & _).
    destruct (round_to_precision_spec y Hy) as (Hy1 & _).
    rewrite <- two_to_succ in Hx2.
    assert (Hpow : (2 ^ (binary_exponent x + 1) <= 2 ^ binary_exponent y)%Q).
    { apply Qpower_le_compat_l; [lia|discriminate]. }
    lra.
Qed.

Lemma round_binary64_pos (x : Q) :
  (0 < x)%Q → round_binary64 x = round_to_precision 53 x.
Proof.
  intros Hx. unfold round_binary64.
  destruct (x ?= 0)%Q eqn:Hc; [apply Qeq_alt in Hc; lra|apply Qlt_alt in Hc; lra|done].
Qed.

Lemma round_binary64_neg (x : Q) :
  (x < 0)%Q → round_binary64 x = (- round_to_precision 53 (- x))%Q.
Proof.
  intros Hx. unfold round_binary64.
  destruct (x ?= 0)%Q eqn:Hc; [apply Qeq_alt in Hc; lra|done|apply Qgt_alt in Hc; lra].
Qed.

Lemma round_binary64_zero (x : Q) : (x == 0)%Q → round_binary64 x = 0%Q.
Proof.
  intros Hx. unfold round_binary64.
  destruct (x ?= 0)%Q eqn:Hc; [done|apply Qlt_alt in Hc; lra|apply Qgt_alt in Hc; lra].
Qed.

Lemma round_binary64_sign (x : Q) :
  ((0 < x)%Q → (0 < round_binary64 x)%Q) ∧
  ((x < 0)%Q → (round_binary64 x < 0)%Q).
Proof.
  split; intros Hx.
  - rewrite round_binary64_pos by done.
    destruct (round_to_precision_spec x Hx) as (Hlo & _).
    pose proof (two_to_pos (binary_exponent x)). lra.
  - rewrite round_binary64_neg by done.
    destruct (round_to_precision_spec (- x) ltac:(lra)) as (Hlo & _).
    pose proof (two_to_pos (binary_exponent (- x))). lra.
Qed.

Lemma round_binary64_mono (x y : Q) :
  (x <= y)%Q → (round_binary64 x <= round_binary64 y)%Q.
Proof.
  intros Hxy.
  destruct (Q_dec x 0) as [[Hx|Hx]|Hx]; destruct (Q_dec y 0) as [[Hy|Hy]|Hy];
    try lra.
  - rewrite !round_binary64_neg by done.
    pose proof (round_to_precision_mono (- y) (- x) ltac:(lra) ltac:(lra)). lra.
  - pose proof (proj2 (round_binary64_sign x) Hx).
    pose proof (proj1 (round_binary64_sign y) Hy). lra.
  - pose proof (proj2 (round_binary64_sign x) Hx).
    rewrite (round_binary64_zero y Hy). lra.
  - rewrite !round_binary64_pos by done. by apply round_to_precision_mono.
  - rewrite (round_binary64_zero x Hx).
    pose proof (proj1 (round_binary64_sign y) Hy). lra.
  - rewrite (round_binary64_zero x Hx), (round_binary64_zero y Hy). lra.
Qed.

Lemma round_binary64_error (x : Q) :
  (Qabs (round_binary64 x - x) <= unit_roundoff * Qabs x)%Q.
Proof.
  apply Qabs_Qle_condition.
  destruct (Q_dec x 0) as [[Hx|Hx]|Hx].
  - rewrite round_binary64_neg by done.
    destruct (round_to_precision_spec (- x) ltac:(lra)) as (_ & _ & Hlo & Hhi).
    rewrite (Qabs_neg x) by lra. lra.
  - rewrite round_binary64_pos by done.
    destruct (round_to_precision_spec x Hx) as (_ & _ & Hlo & Hhi).
    rewrite (Qabs_pos x) by lra. lra.
  - rewrite (round_binary64_zero x Hx), Hx. split; discriminate.
Qed.

End rounding_facts.

(** Binary64 proper, with round to nearest, ties to even. *)
Definition binary64 : Binary64 :=
  {| rnd := round_binary64;
     rnd_mono := round_binary64_mono;
     rnd_0 := eq_refl;
     rnd_1 := eq_refl |}.

#[global] Instance binary64_accurate : @Accurate binary64 := round_binary64_error.

Section count_fields_facts.
Import Compare.

(** The counting loops with their accumulators made explicit. *)
Lemma count_fields_list_acc (l : list json) :
  Forall (λ v, ∀ path, _count_fields v path = spec_count_fields (without_bare_scalars v)) l →
  ∀ path i count,
    (fix enumerate (l : list json) (i : nat) (count : Z) {struct l} : Z :=
       match l with
       | [] => count
       | item :: l' =>
           enumerate l' (S i)
             (count + _count_fields item (path +:+ "[" +:+ pretty i +:+ "]"))
       end) l i count
    = count + spec_count_fields (without_bare_scalars (JList l)).
Proof.
  induction 1 as [|v l Hv _ IH]; intros path i count; simpl.
  - lia.
  - rewrite IH, Hv. simpl. lia.
Qed.

Lemma count_fields_dict_acc (es : list (string * json)) :
  Forall (λ kv, ∀ path, _count_fields kv.2 path
                        = spec_count_fields (without_bare_scalars kv.2)) es →
  ∀ path count,
    (fix items (es : list (string * json)) (count : Z) {struct es} : Z :=
       match es with
       | [] => count
       | (key, value) :: es' =>
           items es'
             (match value with
              | JNull => count
              | JDict _ | JList _ =>
                  count + _count_fields value
                            (if String.eqb path "" then key else path +:+ "." +:+ key)
              | _ => count + 1
              end)
       end) es count
    = count + spec_count_fields (without_bare_scalars (JDict es)).
Proof.
  induction 1 as [|[key value] es Hv _ IH]; intros path count.
  - simpl. lia.
  - cbn [snd] in Hv. rewrite IH. clear IH.
    destruct value; simpl; try lia.
    + specialize (Hv (if String.eqb path "" then key else path +:+ "." +:+ key)).
      simpl in Hv. rewrite Hv. lia.
    + specialize (Hv (if String.eqb path "" then key else path +:+ "." +:+ key)).
      simpl in Hv. rewrite Hv. lia.
Qed.

Lemma count_fields_pruned (v : json) :
  ∀ path, _count_fields v path = spec_count_fields (without_bare_scalars v).
Proof.
  induction v as [| | | | |items IH|entries IH] using json_nested_ind;
    intros path; try reflexivity.
  - change (_count_fields (JList items) path)
      with ((fix enumerate (l : list json) (i : nat) (count : Z) {struct l} : Z :=
               match l with
               | [] => count
               | item :: l' =>
                   enumerate l' (S i)
                     (count + _count_fields item (path +:+ "[" +:+ pretty i +:+ "]"))
               end) items 0%nat 0).
    rewrite (count_fields_list_acc items IH). lia.
  - change (_count_fields (JDict entries) path)
      with ((fix items (es : list (string * json)) (count : Z) {struct es} : Z :=
               match es with
               | [] => count
               | (key, value) :: es' =>
                   items es'
                     (match value with
                      | JNull => count
                      | JDict _ | JList _ =>
                          count + _count_fields value
                                    (if String.eqb path "" then key else path +:+ "." +:+ key)
                      | _ => count + 1
                      end)
               end) entries 0).
    rewrite (count_fields_dict_acc entries IH). lia.
Qed.
End count_fields_facts.

Section count_fields_claim.
Import Compare.

Lemma without_bare_scalars_id (v : json) :
  scalars_keyed v = true → without_bare_scalars v = v.
Proof.
  induction v as [| | | | |items IH|entries IH] using json_nested_ind;
    try (simpl; congruence).
  - intros Hk. simpl in *. f_equal.
    induction IH as [|x l Hx _ IHl]; [reflexivity|].
    apply andb_prop in Hk as [Hk1 Hk2].
    rewrite Hx by exact Hk1. rewrite IHl by exact Hk2. reflexivity.
  - intros Hk. simpl in *. f_equal.
    induction IH as [|[key value] l Hx _ IHl]; [reflexivity|].
    apply andb_prop in Hk as [Hk1 Hk2].
    rewrite IHl by exact Hk2. f_equal. f_equal.
    cbn [snd] in Hx. destruct (is_compound value); [auto|reflexivity].
Qed.

(** C2, as the code has it.  The field count is the recursive definition
    applied to the value once its top-level scalar and the scalars standing
    directly in sequences are taken as null: a non-null scalar counts 1 only
    as the value of a mapping key; a null, a top-level scalar and a scalar
    element of a sequence count 0; a mapping sums its non-null values and a
    sequence its elements.  On a value all of whose scalars are values of
    mapping keys the count is the recursive definition itself, and
    [{"a":1,"b":null,"c":{"d":2}}] counts 2. *)
Theorem count_fields_scalars_only_under_keys :
  (∀ v path, _count_fields v path = spec_count_fields (without_bare_scalars v)) ∧
  (∀ v path, scalars_keyed v = true → _count_fields v path = spec_count_fields v) ∧
  (∀ v path, is_scalar v = true → _count_fields v path = 0) ∧
  (∀ xs path, Forall (λ x, is_scalar x = true) xs → _count_fields (JList xs) path = 0) ∧
  _count_fields example_abcd "" = 2.
Proof.
  split; [exact count_fields_pruned|].
  split.
  { intros v path Hk. rewrite count_fields_pruned.
    rewrite without_bare_scalars_id by exact Hk. reflexivity. }
  split.
  { intros v path Hs. destruct v; simpl in Hs; try discriminate; reflexivity. }
  split; [|reflexivity].
  intros xs path Hxs. rewrite count_fields_pruned. simpl.
  induction Hxs as [|x l Hx _ IH]; [reflexivity|].
  rewrite IH. destruct x; simpl in Hx; try discriminate; reflexivity.
Qed.

Lemma count_fields_scalars_only_under_keys_witness :
  scalars_keyed executives = true ∧
  _count_fields executives "" = spec_count_fields executives ∧
  _count_fields executives "" = 4.
Proof.
  split; [reflexivity|]. split; [|reflexivity].
  apply (proj1 (proj2 count_fields_scalars_only_under_keys) executives "").
  reflexivity.
Defined.

(** C2 as the design document states it fails: the scalars of a sequence
    and a scalar at the top level count 0, not 1 each. *)
Lemma count_fields_bare_scalars_not_counted :
  _count_fields (JList [JInt 1; JInt 2; JInt 3]) ""
    ≠ spec_count_fields (JList [JInt 1; JInt 2; JInt 3]) ∧
  _count_fields (JStr "Acme") "" ≠ spec_count_fields (JStr "Acme").
Proof. split; vm_compute; discriminate. Qed.
End count_fields_claim.

Section completeness_facts.
Import Compare Extractors.
Context `{Binary64}.

Lemma spec_count_fields_nonneg (v : json) : 0 ≤ spec_count_fields v.
Proof.
  induction v as [| | | | |items IH|entries IH] using json_nested_ind;
    simpl; try lia.
  - induction IH as [|x l Hx _ IHl]; lia.
  - induction IH as [|[key value] l Hx _ IHl]; [lia|]. cbn [snd] in Hx. lia.
Qed.

Lemma count_fields_nonneg (v : json) (path : string) : 0 ≤ _count_fields v path.
Proof. rewrite count_fields_pruned. apply spec_count_fields_nonneg. Qed.

Lemma count_fields_falsy (v : json) (path : string) :
  truthy v = false → _count_fields v path = 0.
Proof.
  destruct v as [| | | | |items|entries]; try reflexivity.
  - destruct items; [reflexivity|discriminate].
  - destruct entries; [reflexivity|discriminate].
Qed.

(** A loop that appends one image per item builds the mapped list. *)
Lemma foldl_snoc_map {A B} (f : A → B) (l : list A) (acc : list B) :
  foldl (λ acc x, acc ++ [f x]) acc l = acc ++ (f <$> l).
Proof.
  revert acc. induction l as [|x l IH]; intros acc; simpl.
  - by rewrite app_nil_r.
  - rewrite IH. by rewrite <- app_assoc.
Qed.

(** [calculate_metrics] builds one entry per result, in order. *)
Lemma calculate_metrics_map (self : ResultComparator) :
  calculate_metrics self = metrics_of _get_expected_field_counts <$> results self.
Proof. unfold calculate_metrics. by rewrite foldl_snoc_map. Qed.

Lemma expected_fields_get (qt : Z) :
  dict_get _get_expected_field_counts qt 50 = expected_field_count qt.
Proof.
  unfold dict_get, _get_expected_field_counts, expected_field_count.
  repeat (rewrite lookup_insert; case_decide; subst;
          [rewrite ?decide_True by done; repeat case_decide; try done; try lia
          |rewrite decide_False by done]).
  all: try reflexivity.
Qed.

Lemma expected_field_count_pos (qt : Z) : 0 < expected_field_count qt.
Proof. unfold expected_field_count. repeat case_decide; lia. Qed.

Lemma fields_extracted_eq (r : ExtractionResult) :
  fields_extracted (metrics_of _get_expected_field_counts r)
  = match extracted_data r with
    | Some data => _count_fields data ""
    | None => 0
    end.
Proof.
  simpl. destruct (extracted_data r) as [data|]; [|reflexivity].
  destruct (truthy data) eqn:Ht; [reflexivity|].
  symmetry. by apply count_fields_falsy.
Qed.

Lemma completeness_eq (r : ExtractionResult) :
  let m := metrics_of _get_expected_field_counts r in
  completeness_score m
  = Qmin (fdiv (inject_Z (fields_extracted m))
               (inject_Z (expected_field_count (query_type r)))) 1.
Proof.
  simpl. rewrite expected_fields_get.
  pose proof (expected_field_count_pos (query_type r)) as Hpos.
  apply Z.ltb_lt in Hpos. rewrite Hpos. reflexivity.
Qed.

Lemma fdiv_nonneg (a b : Z) : 0 ≤ a → 0 < b → (0 <= fdiv (inject_Z a) (inject_Z b))%Q.
Proof.
  intros Ha Hb. unfold fdiv. rewrite <- rnd_0. apply rnd_mono.
  apply Qle_shift_div_l.
  - change 0%Q with (inject_Z 0). rewrite <- Zlt_Qlt. exact Hb.
  - rewrite Qmult_0_l. change 0%Q with (inject_Z 0). rewrite <- Zle_Qle. exact Ha.
Qed.

Lemma fdiv_ge_1 (a b : Z) : 0 < b → b ≤ a → (1 <= fdiv (inject_Z a) (inject_Z b))%Q.
Proof.
  intros Hb Hab. unfold fdiv. rewrite <- rnd_1. apply rnd_mono.
  apply Qle_shift_div_l.
  - change 0%Q with (inject_Z 0). rewrite <- Zlt_Qlt. exact Hb.
  - rewrite Qmult_1_l. rewrite <- Zle_Qle. exact Hab.
Qed.

Lemma fdiv_zero (b : Z) : 0 < b → (fdiv (inject_Z 0) (inject_Z b) == 0)%Q.
Proof.
  intros Hb. unfold fdiv.
  apply Qle_antisym.
  - apply Qle_trans with (rnd 0); [|rewrite rnd_0; apply Qle_refl].
    apply rnd_mono. apply Qle_shift_div_r.
    + change 0%Q with (inject_Z 0). rewrite <- Zlt_Qlt. exact Hb.
    + rewrite Qmult_0_l. apply Qle_refl.
  - apply fdiv_nonneg; lia.
Qed.
End completeness_facts.

Section completeness_claim.
Import Compare Extractors.

(** C3.  [calculate_metrics] gives every accumulated result, in order, the
    number of fields [_count_fields] counts in its extracted data (0 when
    there is none) and a completeness score that is this count divided by
    the expected field count of its query type (15, 50, 40, 60, 70 for the
    types 1 to 5, 50 for any other), capped at 1: the score lies in [0,1],
    it is exactly 1 when the field count exceeds the table entry, and it is
    0 for a result that carries an error (which, by the invariant of
    [ExtractionResult], has no extracted data). *)
Theorem calculate_metrics_completeness `{Binary64} (self : ResultComparator) :
  calculate_metrics self = metrics_of _get_expected_field_counts <$> results self ∧
  ∀ r : ExtractionResult,
    let m := metrics_of _get_expected_field_counts r in
    let counted := match extracted_data r with
                   | Some data => _count_fields data ""
                   | None => 0
                   end in
    fields_extracted m = counted ∧
    total_fields_possible m = expected_field_count (query_type r) ∧
    completeness_score m
      = Qmin (fdiv (inject_Z counted)
                   (inject_Z (expected_field_count (query_type r)))) 1 ∧
    completeness_score m
      = Qmin (fdiv (inject_Z (fields_extracted m))
                   (inject_Z (total_fields_possible m))) 1 ∧
    (0 <= completeness_score m)%Q ∧ (completeness_score m <= 1)%Q ∧
    (total_fields_possible m < fields_extracted m → (completeness_score m == 1)%Q) ∧
    (ExtractionResult_inv r → error r ≠ None →
     fields_extracted m = 0 ∧ (completeness_score m == 0)%Q).
Proof.
  split; [apply calculate_metrics_map|].
  intros r m counted.
  assert (Hcount : fields_extracted m = counted) by apply fields_extracted_eq.
  assert (Htot : total_fields_possible m = expected_field_count (query_type r))
    by apply expected_fields_get.
  assert (Hc : completeness_score m
               = Qmin (fdiv (inject_Z (fields_extracted m))
                            (inject_Z (total_fields_possible m))) 1).
  { rewrite Htot. apply completeness_eq. }
  pose proof (expected_field_count_pos (query_type r)) as Hpos.
  assert (Hf : 0 ≤ fields_extracted m).
  { rewrite Hcount. subst counted.
    destruct (extracted_data r); [apply count_fields_nonneg|lia]. }
  split; [exact Hcount|]. split; [exact Htot|].
  split; [by rewrite Hc, Hcount, Htot|]. split; [exact Hc|].
  rewrite Hc, Htot.
  split; [|split; [|split]].
  - apply Q.min_glb; [|discriminate]. by apply fdiv_nonneg.
  - apply Q.le_min_r.
  - intros Hgt. apply Q.min_r. apply fdiv_ge_1; lia.
  - intros Hinv Herr. destruct (Hinv Herr) as (Hdata & _).
    assert (Hz : fields_extracted m = 0).
    { rewrite Hcount. subst counted. by rewrite Hdata. }
    split; [exact Hz|]. rewrite Hz.
    rewrite (fdiv_zero _ Hpos). reflexivity.
Qed.

(** In binary64: the timed-out result scores 0; the result of the test with
    three fields for query type 1 has 3 fields counted and scores the float
    [3 / 15]; a result with twenty fields scores 1. *)
Lemma calculate_metrics_completeness_witness :
  ExtractionResult_inv timed_out_result ∧
  error timed_out_result ≠ None ∧
  (completeness_score
     (metrics_of (H := binary64) _get_expected_field_counts timed_out_result)
   == 0)%Q ∧
  fields_extracted
    (metrics_of (H := binary64) _get_expected_field_counts sonnet_result) = 3 ∧
  completeness_score
    (metrics_of (H := binary64) _get_expected_field_counts sonnet_result)
  = (3602879701896397 # 18014398509481984)%Q ∧
  (completeness_score
     (metrics_of (H := binary64) _get_expected_field_counts twenty_fields_result)
   == 1)%Q.
Proof.
  assert (Hinv : ExtractionResult_inv timed_out_result).
  { intros _. repeat split; reflexivity. }
  assert (Herr : error timed_out_result ≠ None) by discriminate.
  split; [exact Hinv|]. split; [exact Herr|].
  pose proof (calculate_metrics_completeness (H := binary64)
                {| results := [timed_out_result; sonnet_result;
                               twenty_fields_result] |}) as [_ Hall].
  split; [|split; [|split]].
  - destruct (Hall timed_out_result) as (_ & _ & _ & _ & _ & _ & _ & Hzero).
    exact (proj2 (Hzero Hinv Herr)).
  - destruct (Hall sonnet_result) as (Hcount & _). rewrite Hcount. reflexivity.
  - destruct (Hall sonnet_result) as (_ & _ & Hscore & _). rewrite Hscore.
    vm_compute. reflexivity.
  - destruct (Hall twenty_fields_result) as (Hcount & Htot & _ & _ & _ & _ & Hone & _).
    apply Hone. rewrite Hcount, Htot. vm_compute. reflexivity.
Defined.
End completeness_claim.

Section best_of_facts.
Import Compare Extractors.
Context {A : Type} (key : A → Q).

Lemma max_loop_spec (xs : list A) (x : A) :
  let best := foldl (λ best item, if Qlt_le_dec (key best) (key item)
                                  then item else best) x xs in
  best ∈ x :: xs ∧ ∀ y, y ∈ x :: xs → (key y <= key best)%Q.
Proof.
  revert x. induction xs as [|a xs IH]; intros x; simpl.
  - split; [set_solver|]. intros y ->%list_elem_of_singleton. apply Qle_refl.
  - destruct (Qlt_le_dec (key x) (key a)) as [Hlt|Hle].
    + destruct (IH a) as [Hin Hmax]. split; [set_solver|].
      intros y [->|Hy]%elem_of_cons; [|by apply Hmax].
      apply Qle_trans with (key a); [by apply Qlt_le_weak|].
      apply Hmax. set_solver.
    + destruct (IH x) as [Hin Hmax]. split; [set_solver|].
      intros y [->|[->|Hy]%elem_of_cons]%elem_of_cons.
      * apply Hmax. set_solver.
      * apply Qle_trans with (key x); [exact Hle|]. apply Hmax. set_solver.
      * apply Hmax. set_solver.
Qed.

Lemma min_loop_spec (xs : list A) (x : A) :
  let best := foldl (λ best item, if Qlt_le_dec (key item) (key best)
                                  then item else best) x xs in
  best ∈ x :: xs ∧ ∀ y, y ∈ x :: xs → (key best <= key y)%Q.
Proof.
  revert x. induction xs as [|a xs IH]; intros x; simpl.
  - split; [set_solver|]. intros y ->%list_elem_of_singleton. apply Qle_refl.
  - destruct (Qlt_le_dec (key a) (key x)) as [Hlt|Hle].
    + destruct (IH a) as [Hin Hmin]. split; [set_solver|].
      intros y [->|Hy]%elem_of_cons; [|by apply Hmin].
      apply Qle_trans with (key a); [|by apply Qlt_le_weak].
      apply Hmin. set_solver.
    + destruct (IH x) as [Hin Hmin]. split; [set_solver|].
      intros y [->|[->|Hy]%elem_of_cons]%elem_of_cons.
      * apply Hmin. set_solver.
      * apply Qle_trans with (key x); [|exact Hle]. apply Hmin. set_solver.
      * apply Hmin. set_solver.
Qed.

Lemma py_max_spec (xs : list A) :
  xs ≠ [] →
  ∃ best, py_max key xs = Returned best ∧ best ∈ xs ∧
          ∀ y, y ∈ xs → (key y <= key best)%Q.
Proof.
  destruct xs as [|x xs]; [done|]. intros _.
  eexists. split; [reflexivity|]. apply max_loop_spec.
Qed.

Lemma py_min_spec (xs : list A) :
  xs ≠ [] →
  ∃ best, py_min key xs = Returned best ∧ best ∈ xs ∧
          ∀ y, y ∈ xs → (key best <= key y)%Q.
Proof.
  destruct xs as [|x xs]; [done|]. intros _.
  eexists. split; [reflexivity|]. apply min_loop_spec.
Qed.
End best_of_facts.

Section compare_single_query_claim.
Import Compare Extractors.

(** C10.  [compare_single_query_results] raises on an empty list of results
    (the [ValueError] of [max] over an empty sequence) and returns no
    dictionary; on a non-empty list it returns a dictionary in which
    [best_by_completeness] is the model of a metrics entry of maximal
    completeness score, [best_by_cost] that of an entry of minimal cost and
    [best_by_speed] that of an entry of minimal extraction time. *)
Theorem compare_single_query_results_partial `{Binary64} (query_type : Z) :
  (∃ e, compare_single_query_results [] query_type = Raised e ∧
        exn_class_of e = ValueError) ∧
  ∀ rs : list ExtractionResult, rs ≠ [] →
    let metrics := calculate_metrics (add_results new_comparator rs) in
    ∃ c, compare_single_query_results rs query_type = Returned c ∧
      c_query_type c = query_type ∧
      models_compared c = len rs ∧
      (∃ m, m ∈ metrics ∧ best_by_completeness c = m_model m ∧
            ∀ m', m' ∈ metrics → (completeness_score m' <= completeness_score m)%Q) ∧
      (∃ m, m ∈ metrics ∧ best_by_cost c = m_model m ∧
            ∀ m', m' ∈ metrics → (m_cost_usd m <= m_cost_usd m')%Q) ∧
      (∃ m, m ∈ metrics ∧ best_by_speed c = m_model m ∧
            ∀ m', m' ∈ metrics → (m_extraction_time m <= m_extraction_time m')%Q).
Proof.
  split.
  { eexists. split; reflexivity. }
  intros rs Hrs metrics.
  assert (Hne : metrics ≠ []).
  { subst metrics. rewrite calculate_metrics_map. simpl.
    destruct rs; [done|discriminate]. }
  destruct (py_max_spec completeness_score metrics Hne) as (bc & Ebc & Hbc & Mbc).
  destruct (py_min_spec m_cost_usd metrics Hne) as (bk & Ebk & Hbk & Mbk).
  destruct (py_min_spec m_extraction_time metrics Hne) as (bs & Ebs & Hbs & Mbs).
  unfold compare_single_query_results. fold metrics.
  rewrite Ebc, Ebk, Ebs.
  eexists. split; [reflexivity|]. simpl.
  split; [reflexivity|]. split; [reflexivity|].
  split; [|split].
  - exists bc. split; [exact Hbc|]. split; [reflexivity|exact Mbc].
  - exists bk. split; [exact Hbk|]. split; [reflexivity|exact Mbk].
  - exists bs. split; [exact Hbs|]. split; [reflexivity|exact Mbs].
Qed.

Lemma compare_single_query_results_partial_witness :
  ∃ c, compare_single_query_results (H := exact_arithmetic)
         [sonnet_result; haiku_result; gpt4_result] 1 = Returned c ∧
       best_by_completeness c = "claude-sonnet" ∧
       best_by_cost c = "claude-haiku" ∧
       best_by_speed c = "claude-haiku".
Proof.
  destruct (proj2 (compare_single_query_results_partial (H := exact_arithmetic) 1)
              [sonnet_result; haiku_result; gpt4_result])
    as (c & Hc & _); [discriminate|].
  exists c. split; [exact Hc|].
  vm_compute in Hc. injection Hc as <-. repeat split; reflexivity.
Defined.
End compare_single_query_claim.

Section summary_stats_facts.
Import Compare Extractors.
Context `{Binary64}.

Lemma group_step_lookup by_model m (k : string) :
  group_step by_model m !! k
  = if decide (model_key m = k)
    then Some (default [] (by_model !! k) ++ [m])
    else by_model !! k.
Proof.
  unfold group_step, dict_get. case_decide as Hk.
  - subst k. rewrite lookup_insert_eq.
    destruct (by_model !! model_key m) eqn:E; rewrite ?E, ?lookup_insert_eq; done.
  - rewrite lookup_insert_ne by done.
    destruct (by_model !! model_key m); [done|]. by rewrite lookup_insert_ne.
Qed.

Lemma group_loop_lookup (l : list ComparisonMetrics) by_model (k : string) :
  foldl group_step by_model l !! k
  = match filter (λ m, model_key m = k) l with
    | [] => by_model !! k
    | g => Some (default [] (by_model !! k) ++ g)
    end.
Proof.
  revert by_model. induction l as [|m l IH]; intros by_model; [done|].
  cbn [foldl]. rewrite IH, group_step_lookup.
  rewrite filter_cons. case_decide as Hk.
  - simpl. destruct (filter _ l) as [|m' g]; [done|].
    by rewrite <- app_assoc.
  - done.
Qed.

(** A group of [by_model] holds, in order, the metrics whose model key is
    the group's key; a key no metrics entry has is absent. *)
Lemma group_by_model_lookup (metrics : list ComparisonMetrics) (k : string) :
  group_by_model metrics !! k
  = match filter (λ m, model_key m = k) metrics with
    | [] => None
    | g => Some g
    end.
Proof.
  unfold group_by_model. rewrite group_loop_lookup, lookup_empty. reflexivity.
Qed.

(** The loop over [by_model.items()]. *)
Lemma summary_loop_lookup (by_model : gmap string (list ComparisonMetrics))
    (k : string) :
  map_fold (λ model model_metrics (summary : gmap string SummaryStats),
              let successful := successful_of model_metrics in
              match successful with
              | [] => summary
              | _ => <[model := stats_of model_metrics successful]> summary
              end) ∅ by_model !! k
  = match by_model !! k with
    | None => None
    | Some model_metrics =>
        match successful_of model_metrics with
        | [] => None
        | successful => Some (stats_of model_metrics successful)
        end
    end.
Proof.
  revert k.
  apply (map_fold_weak_ind
           (λ (summary : gmap string SummaryStats) by_model, ∀ k : string,
              summary !! k
              = match by_model !! k with
                | None => None
                | Some model_metrics =>
                    match successful_of model_metrics with
                    | [] => None
                    | successful => Some (stats_of model_metrics successful)
                    end
                end)).
  - intros k. by rewrite !lookup_empty.
  - intros i ms m r Hi IH k. cbn zeta.
    destruct (decide (i = k)) as [->|Hne].
    + rewrite lookup_insert_eq. specialize (IH k). rewrite Hi in IH.
      destruct (successful_of ms); [exact IH|]. by rewrite lookup_insert_eq.
    + rewrite (lookup_insert_ne m) by done.
      destruct (successful_of ms); [apply IH|].
      rewrite lookup_insert_ne by done. apply IH.
Qed.

(** The failure tally counts the entries that the filter of [successful]
    leaves out. *)
Lemma failed_tally (g : list ComparisonMetrics) :
  len g - len (successful_of g)
  = len (List.filter (λ m, truthy_str (m_error m)) g).
Proof.
  unfold len, successful_of.
  induction g as [|m g IH]; [done|]. simpl.
  destruct (truthy_str (m_error m)); simpl; lia.
Qed.
End summary_stats_facts.

Section summary_stats_claim.
Import Compare Extractors.

(** C4, as the code has it.  In [generate_summary_stats] the group of a
    model key holds the metrics of that key, and its successful results are
    those whose error is [None] or the empty string ([not m.error]).  Mean
    completeness, mean time, total tokens and total cost are computed over
    the successful results only; a result with a non-empty error is left
    out of them and counted in [failed_extractions]; a group without a
    successful result is absent from the summary. *)
Theorem summary_stats_over_successful `{Binary64}
    (self : ResultComparator) (k : string) :
  let group := filter (λ m, model_key m = k) (calculate_metrics self) in
  let successful := List.filter (λ m, negb (truthy_str (m_error m))) group in
  let failed := List.filter (λ m, truthy_str (m_error m)) group in
  match generate_summary_stats self !! k with
  | None => successful = []
  | Some stats =>
      successful ≠ [] ∧
      avg_completeness stats
        = fdiv (fsum (completeness_score <$> successful)) (inject_Z (len successful)) ∧
      avg_time stats
        = fdiv (fsum (m_extraction_time <$> successful)) (inject_Z (len successful)) ∧
      sum_total_tokens stats = foldl Z.add 0 (m_total_tokens <$> successful) ∧
      total_cost stats = fsum (m_cost_usd <$> successful) ∧
      successful_extractions stats = len successful ∧
      failed_extractions stats = len failed
  end.
Proof.
  intros group successful failed.
  assert (Hsum : generate_summary_stats self !! k
                 = match group with
                   | [] => None
                   | _ => match successful_of group with
                          | [] => None
                          | s => Some (stats_of group s)
                          end
                   end).
  { unfold generate_summary_stats. subst group.
    destruct (calculate_metrics self) as [|m ms] eqn:E.
    - by rewrite lookup_empty.
    - rewrite summary_loop_lookup, group_by_model_lookup.
      by destruct (filter _ (m :: ms)). }
  rewrite Hsum. clear Hsum.
  change successful with (successful_of group).
  destruct group as [|m g] eqn:Eg; [reflexivity|].
  destruct (successful_of (m :: g)) as [|s ss] eqn:Es; [reflexivity|].
  split; [discriminate|].
  repeat (split; [reflexivity|]).
  simpl. rewrite <- Es. apply failed_tally.
Qed.

(** C4 as stated fails on a result whose error is set to the empty string:
    it is taken as successful, enters the averages, is not counted as
    failed, and its group, though every result in it has an error set, is
    in the summary. *)
Lemma summary_stats_counts_empty_error_as_success :
  error silent_failure ≠ None ∧
  ∃ stats,
    generate_summary_stats (H := exact_arithmetic) {| results := [silent_failure] |}
      !! "haiku" = Some stats ∧
    successful_extractions stats = 1 ∧
    failed_extractions stats = 0 ∧
    avg_time stats = extraction_time silent_failure.
Proof.
  split; [discriminate|].
  eexists. split; [vm_compute; reflexivity|].
  repeat split; reflexivity.
Qed.
End summary_stats_claim.

Section cost_facts.
Import Extractors.
Context `{Binary64}.

(** Rounding is monotone, hence compatible with equality of rationals. *)
#[local] Instance rnd_proper : Proper (Qeq ==> Qeq) rnd.
Proof.
  intros x y Hxy. apply Qle_antisym; apply rnd_mono; rewrite Hxy; apply Qle_refl.
Qed.

Lemma rnd_zero (x : Q) : (x == 0)%Q → (rnd x == 0)%Q.
Proof. intros Hx. rewrite Hx. apply rnd_0. Qed.

Lemma round_half_even_zero (q : Q) : (q == 0)%Q → round_half_even q = 0.
Proof.
  intros Hq. unfold round_half_even.
  assert (Hfl : Qfloor q = 0) by (rewrite Hq; reflexivity).
  rewrite Hfl.
  assert (Hfrac : ((q - inject_Z 0) ?= 1 # 2)%Q = Lt).
  { rewrite Hq. reflexivity. }
  rewrite Hfrac. reflexivity.
Qed.

Lemma py_round_zero (x : Q) (ndigits : Z) : (x == 0)%Q → (py_round x ndigits == 0)%Q.
Proof.
  intros Hx. unfold py_round.
  rewrite round_half_even_zero by (rewrite Hx; apply Qmult_0_l).
  apply rnd_zero. unfold Qdiv. apply Qmult_0_l.
Qed.

Lemma fdiv_0_l (b : Q) : (fdiv (inject_Z 0) b == 0)%Q.
Proof.
  unfold fdiv. apply rnd_zero. unfold Qdiv. apply Qmult_0_l.
Qed.

Lemma fmul_0_l (a b : Q) : (a == 0)%Q → (fmul a b == 0)%Q.
Proof.
  intros Ha. unfold fmul. apply rnd_zero. rewrite Ha. apply Qmult_0_l.
Qed.

Lemma fadd_0_0 (a b : Q) : (a == 0)%Q → (b == 0)%Q → (fadd a b == 0)%Q.
Proof.
  intros Ha Hb. unfold fadd. apply rnd_zero. rewrite Ha, Hb. reflexivity.
Qed.

Lemma pricing_lookup (f : backend_family) :
  pricing !! match f with
             | ClaudeSonnet => "claude-sonnet"
             | ClaudeHaiku => "claude-haiku"
             | GPT4 => "gpt-4"
             end = Some (price_per_million f).
Proof.
  unfold pricing. destruct f; simpl.
  - by rewrite lookup_insert_eq.
  - rewrite lookup_insert_ne by done. by rewrite lookup_insert_eq.
  - rewrite !lookup_insert_ne by done. by rewrite lookup_insert_eq.
Qed.

(** The category string the code computes names the family. *)
Lemma model_category_family (model : string) :
  model_category model
  = (λ f, match f with
          | ClaudeSonnet => "claude-sonnet"
          | ClaudeHaiku => "claude-haiku"
          | GPT4 => "gpt-4"
          end) <$> family_of model.
Proof.
  unfold model_category, family_of.
  repeat (case_match; try reflexivity).
Qed.

Lemma spec_cost_zero (f : backend_family) : (spec_cost f 0 0 == 0)%Q.
Proof.
  unfold spec_cost. destruct (price_per_million f) as [pin pout].
  apply py_round_zero. apply fadd_0_0; apply fmul_0_l; apply fdiv_0_l.
Qed.

(** C5.  The cost of a call is
    [round(prompt/1e6 * inputPrice + completion/1e6 * outputPrice, 6)] at
    the prices of the family of the model identifier; an identifier of no
    known family costs 0.0; and zero prompt and completion tokens cost
    exactly 0.0 whatever the identifier. *)
Theorem calculate_cost_formula (prompt_tokens completion_tokens : Z) (model : string) :
  _calculate_cost prompt_tokens completion_tokens model
    = match family_of model with
      | Some f => spec_cost f prompt_tokens completion_tokens
      | None => 0%Q
      end ∧
  (family_of model = None →
   _calculate_cost prompt_tokens completion_tokens model = 0%Q) ∧
  (_calculate_cost 0 0 model == 0)%Q.
Proof.
  assert (Heq : ∀ p c, _calculate_cost p c model
                       = match family_of model with
                         | Some f => spec_cost f p c
                         | None => 0%Q
                         end).
  { intros p c. unfold _calculate_cost. rewrite model_category_family.
    destruct (family_of model) as [f|]; [|reflexivity].
    simpl. rewrite pricing_lookup. unfold spec_cost.
    destruct (price_per_million f). reflexivity. }
  split; [apply Heq|]. split.
  - intros Hnone. by rewrite Heq, Hnone.
  - rewrite Heq. destruct (family_of model); [apply spec_cost_zero|reflexivity].
Qed.
End cost_facts.

Section cost_examples.
Import Extractors.

(** The figures of [test_base_extractor_calculate_cost]. *)
Example cost_sonnet_1000_1000 :
  (_calculate_cost (H := exact_arithmetic) 1000 1000 "claude-sonnet-4-20250514"
   == 18 # 1000)%Q.
Proof. reflexivity. Qed.

Example cost_haiku_1000_1000 :
  (_calculate_cost (H := exact_arithmetic) 1000 1000 "claude-3-5-haiku-20241022"
   == 15 # 10000)%Q.
Proof. reflexivity. Qed.

Lemma calculate_cost_formula_witness :
  family_of "llama-3-70b" = None ∧
  _calculate_cost (H := exact_arithmetic) 1000 1000 "llama-3-70b" = 0%Q.
Proof.
  split; [reflexivity|].
  apply (proj1 (proj2 (calculate_cost_formula (H := exact_arithmetic)
                         1000 1000 "llama-3-70b"))).
  reflexivity.
Defined.
End cost_examples.

Section effects_facts.
Context `{Binary64}.

(** [acquire] returns, and sends no request. *)
Lemma acquire_returns (lag : Q) (s : State) :
  ∃ s', acquire lag s = (Returned tt, s') ∧ calls s' = calls s.
Proof.
  unfold acquire, bind, get_limiter, time_time, put_limiter, sleep, ret.
  destruct (Qlt_le_dec _ _); eexists; split; reflexivity.
Qed.

(** A request through [wait_for] is one more request sent. *)
Lemma wait_for_calls {R} (request : nat → Q * outcome R) (timeout : Q) (s : State) :
  calls (snd (wait_for request timeout s)) = S (calls s).
Proof.
  unfold wait_for. destruct (request (calls s)) as [d o].
  destruct (Qlt_le_dec timeout d); reflexivity.
Qed.

(** A function that returns is called once by the retry loop. *)
Lemma retrying_of_returned {A} (lag : Q) (retry_if : exn → bool)
    (attempts_left attempt_number : nat) (fn : M A) (s : State) (a : A) (s' : State) :
  fn s = (Returned a, s') →
  retrying lag retry_if attempts_left attempt_number fn s = (Returned a, s').
Proof. intros Hfn. destruct attempts_left; simpl; rewrite Hfn; reflexivity. Qed.

(** The retry loop does retry a function that raises: three calls, two waits
    of 2 seconds, and the last exception re-raised. *)
Example retry_three_attempts :
  let '(o, s') := retry 0 3 (λ _, true) Extractors.always_fails Extractors.fresh_state in
  o = Raised (Exn OtherException "connection reset") ∧
  calls s' = 3%nat ∧
  (now s' == 1004)%Q.
Proof. vm_compute. repeat split; congruence. Qed.

End effects_facts.

Section extract_facts.
Import Extractors.
Context `{Binary64}.
Variable settings : Settings.
Variable lag : Q.
Variable json_loads : string → option json.
Variable search_code_block : string → option string.
Variable search_braces : string → option string.
Variable messages_create : string → Z → string → nat → Q * outcome ClaudeResponse.
Variable chat_completions_create :
  string → Z → string → string → nat → Q * outcome OpenAIResponse.

(** One attempt of the Claude extractor never raises: it returns a result,
    having sent one request. *)
Lemma ClaudeExtractor_attempt_returns (self : ClaudeExtractor) (text prompt : string)
    (query_type : Z) (query_name : string) (s : State) :
  ∃ r s',
    ClaudeExtractor_extract_attempt settings lag json_loads search_code_block
      search_braces messages_create self text prompt query_type query_name s
    = (Returned r, s') ∧
    calls s' = S (calls s) ∧
    ExtractionResult_inv r.
Proof.
  unfold ClaudeExtractor_extract_attempt.
  destruct (acquire_returns lag s) as (s1 & Hacq & Hc1).
  unfold bind at 1. rewrite Hacq.
  unfold bind at 1, time_time at 1.
  unfold try_except.
  match goal with |- context [bind (wait_for ?rq ?to) ?k s1] =>
    pose proof (wait_for_calls rq to s1) as Hcalls;
    unfold bind at 1; destruct (wait_for rq to s1) as [[response|e] s2]
  end; simpl in Hcalls.
  - unfold bind, time_time, ret. do 2 eexists. split; [reflexivity|].
    split; [simpl; congruence|]. intros Herr. by simpl in Herr.
  - destruct (is_timeout e); unfold bind, time_time, ret;
      do 2 eexists; (split; [reflexivity|]);
      (split; [simpl; congruence|]); intros _; by repeat split.
Qed.

Lemma OpenAIExtractor_attempt_returns (self : OpenAIExtractor) (text prompt : string)
    (query_type : Z) (query_name : string) (s : State) :
  ∃ r s',
    OpenAIExtractor_extract_attempt settings lag json_loads search_code_block
      search_braces chat_completions_create self text prompt query_type query_name s
    = (Returned r, s') ∧
    calls s' = S (calls s) ∧
    ExtractionResult_inv r.
Proof.
  unfold OpenAIExtractor_extract_attempt.
  destruct (acquire_returns lag s) as (s1 & Hacq & Hc1).
  unfold bind at 1. rewrite Hacq.
  unfold bind at 1, time_time at 1.
  unfold try_except.
  match goal with |- context [bind (wait_for ?rq ?to) ?k s1] =>
    pose proof (wait_for_calls rq to s1) as Hcalls;
    unfold bind at 1; destruct (wait_for rq to s1) as [[response|e] s2]
  end; simpl in Hcalls.
  - unfold bind at 1, time_time at 1.
    destruct (choices response) as [|first rest]; unfold raise, ret.
    + unfold is_timeout. simpl. unfold bind, time_time, ret.
      do 2 eexists. split; [reflexivity|].
      split; [simpl; congruence|]. intros _. by repeat split.
    + do 2 eexists. split; [reflexivity|].
      split; [simpl; congruence|]. intros Herr. by simpl in Herr.
  - destruct (is_timeout e); unfold bind, time_time, ret;
      do 2 eexists; (split; [reflexivity|]);
      (split; [simpl; congruence|]); intros _; by repeat split.
Qed.

End extract_facts.

Section extract_claim.
Import Extractors.

(** C1 on the code.  The body of [extract] catches every exception itself,
    so the retry decorator never sees one: whatever the backend does,
    [extract] returns what its first attempt returns after exactly one
    request, for the Claude and for the OpenAI extractor.  With a backend
    whose first request times out and whose second would succeed, the caller
    gets the error result [Timeout after 120s] (no data, zero tokens, zero
    cost, 120 seconds elapsed) and the second request is never sent. *)
Theorem extract_never_retries `{Binary64} (settings : Settings) (lag : Q)
    (json_loads : string → option json)
    (search_code_block search_braces : string → option string)
    (messages_create : string → Z → string → nat → Q * outcome ClaudeResponse)
    (chat_completions_create :
       string → Z → string → string → nat → Q * outcome OpenAIResponse)
    (text prompt : string) (query_type : Z) (query_name : string) (s : State) :
  (∀ self : ClaudeExtractor,
     ClaudeExtractor_extract settings lag json_loads search_code_block search_braces
       messages_create self text prompt query_type query_name s
     = ClaudeExtractor_extract_attempt settings lag json_loads search_code_block
         search_braces messages_create self text prompt query_type query_name s ∧
     ∃ r s',
       ClaudeExtractor_extract settings lag json_loads search_code_block search_braces
         messages_create self text prompt query_type query_name s = (Returned r, s') ∧
       calls s' = S (calls s)) ∧
  (∀ self : OpenAIExtractor,
     OpenAIExtractor_extract settings lag json_loads search_code_block search_braces
       chat_completions_create self text prompt query_type query_name s
     = OpenAIExtractor_extract_attempt settings lag json_loads search_code_block
         search_braces chat_completions_create self text prompt query_type query_name s ∧
     ∃ r s',
       OpenAIExtractor_extract settings lag json_loads search_code_block search_braces
         chat_completions_create self text prompt query_type query_name s
       = (Returned r, s') ∧
       calls s' = S (calls s)) ∧
  ∃ s',
    ClaudeExtractor_extract (H := exact_arithmetic) default_settings 0
      json_loads search_code_block search_braces hangs_once
      sonnet_extractor text prompt query_type query_name fresh_state
    = (Returned (ExtractionResult_failed "claude-sonnet-4-20250514" query_type query_name
                   120 "Timeout after 120s"), s') ∧
    calls s' = 1%nat.
Proof.
  split; [|split].
  - intros self.
    destruct (ClaudeExtractor_attempt_returns settings lag json_loads search_code_block
                search_braces messages_create self text prompt query_type query_name s)
      as (r & s' & Hr & Hc & _).
    unfold ClaudeExtractor_extract, retry.
    rewrite (retrying_of_returned _ _ _ _ _ _ _ _ Hr).
    split; [by rewrite Hr|]. by exists r, s'.
  - intros self.
    destruct (OpenAIExtractor_attempt_returns settings lag json_loads search_code_block
                search_braces chat_completions_create self text prompt query_type
                query_name s) as (r & s' & Hr & Hc & _).
    unfold OpenAIExtractor_extract, retry.
    rewrite (retrying_of_returned _ _ _ _ _ _ _ _ Hr).
    split; [by rewrite Hr|]. by exists r, s'.
  - eexists. split; [reflexivity|reflexivity].
Qed.

End extract_claim.

Section parse_facts.
Import Parser.
Context `{Binary64}.
Variable settings : Settings.
Variable lag : Q.
Variable UNSTRUCTURED_AVAILABLE : bool.
Variable file_exists : string → bool.
Variable read_file : string → outcome string.
Variable stat_size : string → outcome Z.
Variable partition :
  string → string → ParsingStrategy → nat → Q * outcome PartitionResponse.
Variable import_partition_pdf : outcome unit.
Variable partition_pdf : string → ParsingStrategy → nat → Q * outcome (list LocalElement).

Local Abbreviation remote_post :=
  (Parser.remote_post settings read_file stat_size partition).
Local Abbreviation local_post := (Parser.local_post import_partition_pdf partition_pdf).

Lemma parse_with_api_attempt_spec (self : PDFParser) (file : string)
    (strategy : ParsingStrategy) (s : State) :
  client self = true →
  ∃ pr s',
    _parse_with_api_attempt settings lag read_file stat_size partition
      self file strategy s = (Returned pr, s') ∧
    shaped pr ∧ remote_post file strategy s pr.
Proof.
  intros Hclient. unfold _parse_with_api_attempt. rewrite Hclient. cbn [negb].
  destruct (acquire_returns lag s) as (s1 & Hacq & Hc1).
  unfold bind at 1. rewrite Hacq.
  unfold bind at 1, time_time at 1, try_except, Parser.remote_post.
  unfold bind at 1, lift at 1.
  destruct (read_file file) as [content|e0] eqn:Hread.
  2:{ unfold bind, time_time, ret. do 2 eexists. split; [reflexivity|].
      split; [by repeat split|]. split; [by intros e [= ->]|]. by intros. }
  unfold bind at 1, wait_for. rewrite Hc1.
  destruct (partition (path_name file) content strategy (calls s)) as [d o] eqn:Hpart.
  destruct (Qlt_le_dec (inject_Z (api_timeout settings)) d) as [Hslow|Hfast].
  { unfold bind, time_time, ret. do 2 eexists. split; [reflexivity|].
    split; [by repeat split|]. split; [by intros|].
    intros content' d' o' [= <-] Hp. rewrite Hpart in Hp. injection Hp as <- <-. split; [done|].
    intros Hle. exfalso. by apply (Qlt_not_le _ _ Hslow). }
  destruct o as [response|e1].
  2:{ unfold bind, time_time, ret. do 2 eexists. split; [reflexivity|].
      split; [by repeat split|]. split; [by intros|].
      intros content' d' o' [= <-] Hp. rewrite Hpart in Hp. injection Hp as <- <-. split; [|done].
      intros Hlt. exfalso. by apply (Qlt_not_le _ _ Hlt). }
  unfold bind at 1, time_time at 1.
  destruct (collect_elements response) as [els parts] eqn:Hcol.
  unfold bind at 1, lift.
  destruct (stat_size file) as [size|e2] eqn:Hstat.
  - unfold ret. do 2 eexists. split; [reflexivity|].
    split; [by split|]. split; [by intros|].
    intros content' d' o' [= <-] Hp. rewrite Hpart in Hp. injection Hp as <- <-. split.
    + intros Hlt. exfalso. by apply (Qlt_not_le _ _ Hlt).
    + intros _. rewrite Hcol. by repeat split.
  - unfold bind, time_time, ret. do 2 eexists. split; [reflexivity|].
    split; [by repeat split|]. split; [by intros|].
    intros content' d' o' [= <-] Hp. rewrite Hpart in Hp. injection Hp as <- <-. split.
    + intros Hlt. exfalso. by apply (Qlt_not_le _ _ Hlt).
    + by intros _.
Qed.

Lemma parse_local_spec (self : PDFParser) (file : string)
    (strategy : ParsingStrategy) (s : State) :
  ∃ pr s',
    _parse_local import_partition_pdf partition_pdf self file strategy s
    = (Returned pr, s') ∧
    shaped pr ∧ local_post file strategy s pr.
Proof.
  unfold _parse_local, Parser.local_post.
  unfold bind at 1, time_time at 1, try_except.
  unfold bind at 1, lift.
  destruct import_partition_pdf as [u|e0].
  2:{ destruct (is_import_error e0); unfold bind, time_time, ret;
        do 2 eexists; (split; [reflexivity|]); by repeat split. }
  unfold bind at 1, run_in_executor.
  destruct (partition_pdf file strategy (calls s)) as [d [local_elements|e1]]; cbn [snd].
  - unfold bind, time_time, ret. do 2 eexists. split; [reflexivity|].
    by repeat split.
  - destruct (is_import_error e1); unfold bind, time_time, ret;
      do 2 eexists; (split; [reflexivity|]); by repeat split.
Qed.

(** With a client, the decorated [_parse_with_api] is its first attempt. *)
Lemma parse_with_api_no_retry (self : PDFParser) (file : string)
    (strategy : ParsingStrategy) (s : State) :
  client self = true →
  _parse_with_api settings lag UNSTRUCTURED_AVAILABLE read_file stat_size partition
    self file strategy s
  = _parse_with_api_attempt settings lag read_file stat_size partition
      self file strategy s.
Proof.
  intros Hclient.
  destruct (parse_with_api_attempt_spec self file strategy s Hclient)
    as (pr & s' & Hpr & _).
  unfold _parse_with_api, retry.
  rewrite (retrying_of_returned _ _ _ _ _ _ _ _ Hpr). by rewrite Hpr.
Qed.

End parse_facts.

Section parse_claims.
Import Parser.



End parse_claims.

Section parse_result_facts.
Import Parser.

Lemma shaped_inv (pr : ParseResult) : shaped pr → ParseResult_inv pr.
Proof.
  unfold shaped, ParseResult_inv. destruct (error pr) as [msg|].
  - intros Hfail. split; [done|]. by intros _.
  - intros [Hel _]. split; [done|]. intros (_ & Hnone & _). by destruct Hel.
Qed.

(** What the retry loop returns, one of the calls of the function
    returned. *)
Lemma retrying_returned {A} (P : A → Prop) (lag : Q) (retry_if : exn → bool)
    (fn : M A) :
  (∀ s a s', fn s = (Returned a, s') → P a) →
  ∀ attempts_left attempt_number s a s',
    retrying lag retry_if attempts_left attempt_number fn s = (Returned a, s') → P a.
Proof.
  intros Hfn attempts_left.
  induction attempts_left as [|n IH]; intros attempt_number s a s'; simpl.
  - destruct (fn s) as [[a0|e] s0] eqn:E.
    + intros [= <- <-]. by eapply Hfn.
    + by destruct (retry_if e).
  - destruct (fn s) as [[a0|e] s0] eqn:E.
    + intros [= <- <-]. by eapply Hfn.
    + destruct (retry_if e); [apply IH|done].
Qed.

(** The loop of [parse_batch] over the gathered results. *)
Lemma handle_exceptions_imap (file_paths : list string) (strategy : ParsingStrategy)
    (results : list (outcome ParseResult)) :
  handle_exceptions file_paths strategy results
  = imap (λ i result,
            match result with
            | Raised e =>
                {| file_path := default "" (file_paths !! i);
                   strategy := strategy; text := "";
                   elements := None; metadata := None; parse_time := 0;
                   token_count := None; error := Some (exn_str e) |}
            | Returned r => r
            end) results.
Proof.
  unfold handle_exceptions.
  set (f := λ (i : nat) (result : outcome ParseResult),
              match result with
              | Raised e =>
                  {| file_path := default "" (file_paths !! i);
                     strategy := strategy; text := "";
                     elements := None; metadata := None; parse_time := 0;
                     token_count := None; error := Some (exn_str e) |}
              | Returned r => r
              end).
  assert (Hgen : ∀ (l : list (nat * outcome ParseResult)) acc,
             foldl (λ parsed_results '(i, result),
                      match result with
                      | Raised e =>
                          parsed_results ++
                            [{| file_path := default "" (file_paths !! i);
                                strategy := strategy; text := "";
                                elements := None; metadata := None; parse_time := 0;
                                token_count := None; error := Some (exn_str e) |}]
                      | Returned r => parsed_results ++ [r]
                      end) acc l
             = acc ++ ((λ p, f p.1 p.2) <$> l)).
  { induction l as [|[i [r|e]] l IH]; intros acc; simpl.
    - by rewrite app_nil_r.
    - rewrite IH. by rewrite <- app_assoc.
    - rewrite IH. by rewrite <- app_assoc. }
  rewrite Hgen. simpl. rewrite fmap_imap. reflexivity.
Qed.






End parse_result_facts.

Section parse_batch_claims.
Import Parser.

(** Every filled slot was filled by a completion. *)
Lemma fill_slots_source {A} (cs : list (nat * outcome A))
    (slots : list (option (outcome A))) (j : nat) (o : outcome A) :
  foldl (λ slots '(i, o), <[i := Some o]> slots) slots cs !! j = Some (Some o) →
  slots !! j = Some (Some o) ∨ (j, o) ∈ cs.
Proof.
  revert slots. induction cs as [|[i o'] cs IH]; intros slots Hj; [by left|].
  cbn [foldl] in Hj. destruct (IH _ Hj) as [Hins|Hin]; [|right; set_solver].
  apply list_lookup_insert_Some in Hins as [(-> & [= ->] & _)|[_ Hold]].
  - right. set_solver.
  - by left.
Qed.

Lemma gather_source {A} (n : nat) (completions : list (nat * outcome A))
    (results : list (outcome A)) (j : nat) (o : outcome A) :
  gather n completions = Some results → results !! j = Some o →
  (j, o) ∈ completions.
Proof.
  unfold gather. intros Hm Hj.
  apply mapM_Some in Hm.
  destruct (Forall2_lookup_r _ _ _ _ _ Hm Hj) as (slot & Hslot & Hid).
  simpl in Hid. subst slot.
  destruct (fill_slots_source _ _ _ _ Hslot) as [Hrep|Hin]; [|done].
  apply lookup_replicate in Hrep as [? _]. done.
Qed.

(** C9.  Every [ParseResult] the parser produces satisfies the invariant
    that [error] is set if and only if the text is empty and elements and
    token count are absent: the result of [parse], of [_parse_local], of
    [_parse_with_api] when it returns one, and every entry of the list
    [parse_batch] returns, the results of its tasks being results of
    [parse]. *)
Theorem parse_results_invariant `{Binary64} (settings : Settings) (lag : Q)
    (UNSTRUCTURED_AVAILABLE : bool) (file_exists : string → bool)
    (read_file : string → outcome string) (stat_size : string → outcome Z)
    (partition : string → string → ParsingStrategy → nat → Q * outcome PartitionResponse)
    (import_partition_pdf : outcome unit)
    (partition_pdf : string → ParsingStrategy → nat → Q * outcome (list LocalElement))
    (self : PDFParser) (file : string) (strategy : ParsingStrategy) (use_api : bool)
    (s : State) :
  (∃ pr s',
     parse settings lag UNSTRUCTURED_AVAILABLE file_exists read_file stat_size
       partition import_partition_pdf partition_pdf self file strategy use_api s
     = (Returned pr, s') ∧ ParseResult_inv pr) ∧
  (∃ pr s',
     _parse_local import_partition_pdf partition_pdf self file strategy s
     = (Returned pr, s') ∧ ParseResult_inv pr) ∧
  match (_parse_with_api settings lag UNSTRUCTURED_AVAILABLE read_file stat_size
           partition self file strategy s).1 with
  | Returned pr => ParseResult_inv pr
  | Raised _ => client self = false
  end ∧
  ∀ (file_paths : list string) (completions : list (nat * outcome ParseResult))
    (results : list ParseResult),
    (∀ i pr, (i, Returned pr) ∈ completions → ParseResult_inv pr) →
    parse_batch file_paths strategy completions = Some results →
    Forall ParseResult_inv results.
Proof.
  split; [|split; [|split]].
  - unfold parse. destruct (file_exists file); cbn [negb].
    2:{ unfold ret. do 2 eexists. split; [reflexivity|]. by apply shaped_inv. }
    destruct (use_api && client self) eqn:Hapi.
    + apply andb_prop in Hapi as [_ Hclient].
      rewrite (parse_with_api_no_retry settings lag UNSTRUCTURED_AVAILABLE read_file
                 stat_size partition self file strategy s Hclient).
      destruct (parse_with_api_attempt_spec settings lag read_file stat_size partition
                  self file strategy s Hclient) as (pr & s' & Hpr & Hshape & _).
      exists pr, s'. split; [exact Hpr|by apply shaped_inv].
    + destruct (parse_local_spec import_partition_pdf partition_pdf self file strategy s)
        as (pr & s' & Hpr & Hshape & _).
      exists pr, s'. split; [exact Hpr|by apply shaped_inv].
  - destruct (parse_local_spec import_partition_pdf partition_pdf self file strategy s)
      as (pr & s' & Hpr & Hshape & _).
    exists pr, s'. split; [exact Hpr|by apply shaped_inv].
  - destruct (client self) eqn:Hclient.
    + rewrite (parse_with_api_no_retry settings lag UNSTRUCTURED_AVAILABLE read_file
                 stat_size partition self file strategy s Hclient).
      destruct (parse_with_api_attempt_spec settings lag read_file stat_size partition
                  self file strategy s Hclient) as (pr & s' & Hpr & Hshape & _).
      rewrite Hpr. by apply shaped_inv.
    + unfold _parse_with_api, retry, _parse_with_api_attempt.
      rewrite Hclient. reflexivity.
  - intros file_paths completions results Htasks Hbatch.
    unfold parse_batch in Hbatch.
    destruct (gather (length file_paths) completions) as [gathered|] eqn:Hg;
      [|discriminate].
    injection Hbatch as <-. rewrite handle_exceptions_imap.
    apply Forall_lookup. intros i pr Hi.
    apply list_lookup_imap_Some in Hi as (o & Ho & ->).
    destruct o as [r|e].
    + apply (Htasks i). by eapply gather_source.
    + by apply shaped_inv.
Qed.

Lemma parse_results_invariant_witness :
  ∃ results,
    parse_batch three_files HI_RES three_completions = Some results ∧
    Forall ParseResult_inv results.
Proof.
  exists (handle_exceptions three_files HI_RES three_outcomes).
  split; [reflexivity|].
  refine (proj2 (proj2 (proj2
            (parse_results_invariant (H := binary64) default_settings 0 true (λ _, true)
               (λ _, Returned "%PDF") (λ _, Returned 4)
               service_hangs not_installed no_local_library
               {| client := true |} "a.pdf" HI_RES true parser_state)))
            three_files three_completions _ _ eq_refl).
  intros i pr Hin. apply shaped_inv.
  unfold three_completions in Hin. rewrite !elem_of_cons in Hin.
  destruct Hin as [Hc|[Hb|[Ha|Hnil]]].
  - injection Hc as _ ->. by split.
  - discriminate Hb.
  - injection Ha as _ ->. by split.
  - by apply elem_of_nil in Hnil.
Defined.

End parse_batch_claims.

Section parse_batch_order.
Import Parser.




End parse_batch_order.

Section rate_limiter_facts.
Import Tasks.
Context `{Binary64} `{!Accurate}.













End rate_limiter_facts.

Section rate_limiter_claim.
Import Tasks.


End rate_limiter_claim.

Section rate_limiter_examples.
Import Tasks.



End rate_limiter_examples.


Section count_fields_structure.
Import Compare.








End count_fields_structure.

Section metrics_structure.
Import Extractors Compare.
Context `{Binary64}.

(** X2.  [calculate_metrics] scores every result on its own: the metrics of
    a comparator to which results were added are the metrics it had followed
    by the metrics of the added results; adding one result is adding a list
    of one; there is one entry per result, in order, and each entry carries
    the model, query type, time, tokens, cost and error of its result. *)
Theorem calculate_metrics_add_results (self : ResultComparator)
    (rs : list ExtractionResult) (r : ExtractionResult) :
  calculate_metrics (add_results self rs)
    = calculate_metrics self ++ calculate_metrics (add_results new_comparator rs) ∧
  calculate_metrics (add_result self r) = calculate_metrics (add_results self [r]) ∧
  length (calculate_metrics self) = length (results self) ∧
  ∀ i r', results self !! i = Some r' →
    ∃ m, calculate_metrics self !! i = Some m ∧
         m_model m = model r' ∧ m_query_type m = query_type r' ∧
         m_extraction_time m = extraction_time r' ∧
         m_total_tokens m = total_tokens r' ∧
         m_cost_usd m = cost_usd r' ∧ m_error m = error r'.
Proof.
  rewrite !calculate_metrics_map. simpl.
  split; [by rewrite fmap_app|]. split; [done|].
  split; [by rewrite length_fmap|].
  intros i r' Hi. eexists. split; [by rewrite list_lookup_fmap, Hi|].
  by repeat split.
Qed.

Lemma fdiv_mono_l (a b c : Z) :
  0 < c → a ≤ b → (fdiv (inject_Z a) (inject_Z c) <= fdiv (inject_Z b) (inject_Z c))%Q.
Proof.
  intros Hc Hab. unfold fdiv. apply rnd_mono.
  unfold Qdiv. apply Qmult_le_compat_r.
  - by rewrite <- Zle_Qle.
  - apply Qlt_le_weak, Qinv_lt_0_compat.
    change 0%Q with (inject_Z 0). by rewrite <- Zlt_Qlt.
Qed.

(** X3.  For one query type the completeness score never falls when more
    fields are extracted. *)
Theorem completeness_monotone (r1 r2 : ExtractionResult) :
  query_type r1 = query_type r2 →
  fields_extracted (metrics_of _get_expected_field_counts r1)
    ≤ fields_extracted (metrics_of _get_expected_field_counts r2) →
  (completeness_score (metrics_of _get_expected_field_counts r1)
   <= completeness_score (metrics_of _get_expected_field_counts r2))%Q.
Proof.
  intros Hqt Hle. rewrite !completeness_eq, Hqt.
  apply Q.min_le_compat_r. apply fdiv_mono_l; [apply expected_field_count_pos|done].
Qed.

End metrics_structure.

Section metrics_examples.
Import Extractors Compare.

Lemma completeness_monotone_witness :
  (completeness_score
     (metrics_of (H := exact_arithmetic) _get_expected_field_counts haiku_result)
   <= completeness_score
        (metrics_of (H := exact_arithmetic) _get_expected_field_counts sonnet_result))%Q.
Proof.
  apply (completeness_monotone (H := exact_arithmetic) haiku_result sonnet_result).
  - reflexivity.
  - vm_compute. discriminate.
Defined.

End metrics_examples.

Section summary_keys.
Import Extractors Compare.
Context `{Binary64}.

Lemma summary_lookup (self : ResultComparator) (k : string) :
  generate_summary_stats self !! k
  = match filter (λ m, model_key m = k) (calculate_metrics self) with
    | [] => None
    | g => match successful_of g with
           | [] => None
           | s => Some (stats_of g s)
           end
    end.
Proof.
  unfold generate_summary_stats.
  destruct (calculate_metrics self) as [|m ms] eqn:E.
  - by rewrite lookup_empty.
  - rewrite summary_loop_lookup, group_by_model_lookup.
    by destruct (filter _ (m :: ms)).
Qed.

Lemma successful_of_elem (g : list ComparisonMetrics) (m : ComparisonMetrics) :
  m ∈ successful_of g ↔ m ∈ g ∧ truthy_str (m_error m) = false.
Proof.
  unfold successful_of. rewrite !list_elem_of_In, filter_In, negb_true_iff.
  reflexivity.
Qed.

(** X4.  A model key has an entry in the summary exactly when some
    accumulated result of that key has no error message; so a comparator all
    of whose results failed, and an empty one, give the empty summary, and
    every entry counts at least one successful extraction. *)
Theorem summary_has_key_iff_success (self : ResultComparator) (k : string) :
  (is_Some (generate_summary_stats self !! k) ↔
   ∃ r, r ∈ results self ∧
        model_key (metrics_of _get_expected_field_counts r) = k ∧
        truthy_str (error r) = false) ∧
  ((∀ r, r ∈ results self → truthy_str (error r) = true) →
   generate_summary_stats self = ∅) ∧
  (∀ stats, generate_summary_stats self !! k = Some stats →
            0 < successful_extractions stats ∧ 0 ≤ failed_extractions stats).
Proof.
  assert (Hiff : ∀ k, is_Some (generate_summary_stats self !! k) ↔
            ∃ r, r ∈ results self ∧
                 model_key (metrics_of _get_expected_field_counts r) = k ∧
                 truthy_str (error r) = false).
  { intros k'. rewrite summary_lookup, calculate_metrics_map. split.
    - intros Hsome.
      destruct (filter _ _) as [|m0 g0] eqn:Eg; [by destruct Hsome|].
      cbn zeta in Hsome.
      destruct (successful_of (m0 :: g0)) as [|s ss] eqn:Es; [by destruct Hsome|].
      assert (Hs : s ∈ successful_of (m0 :: g0)) by (rewrite Es; left).
      apply successful_of_elem in Hs as [Hin Herr].
      rewrite <- Eg in Hin. apply list_elem_of_filter in Hin as [Hkey Hin].
      apply list_elem_of_fmap in Hin as (r & -> & Hr).
      by exists r.
    - intros (r & Hr & Hkey & Herr).
      set (m := metrics_of _get_expected_field_counts r).
      assert (Hin : m ∈ filter (λ m, model_key m = k')
                         (metrics_of _get_expected_field_counts <$> results self)).
      { apply list_elem_of_filter. split; [done|]. by apply list_elem_of_fmap_2. }
      destruct (filter _ _) as [|m0 g0] eqn:Eg; [by apply elem_of_nil in Hin|].
      assert (Hs : m ∈ successful_of (m0 :: g0)) by by apply successful_of_elem.
      cbn zeta.
      destruct (successful_of (m0 :: g0)); [by apply elem_of_nil in Hs|done]. }
  split; [apply Hiff|]. split.
  - intros Hall. apply map_eq. intros k'. rewrite lookup_empty.
    apply eq_None_not_Some. intros (r & Hr & _ & Herr)%Hiff.
    rewrite (Hall r Hr) in Herr. discriminate.
  - intros stats. rewrite summary_lookup.
    destruct (filter _ _) as [|m0 g0]; [done|]. cbn zeta.
    destruct (successful_of (m0 :: g0)) as [|s ss] eqn:Es; [done|].
    intros [= <-]. cbn [successful_extractions failed_extractions stats_of]. split.
    + unfold len. simpl. lia.
    + rewrite <- Es, failed_tally. unfold len. lia.
Qed.

End summary_keys.

Section summary_keys_examples.
Import Extractors Compare.

Lemma summary_has_key_iff_success_witness :
  generate_summary_stats (H := exact_arithmetic) {| results := [timed_out_result] |} = ∅.
Proof.
  apply (proj1 (proj2 (summary_has_key_iff_success (H := exact_arithmetic)
                         {| results := [timed_out_result] |} ""))).
  intros r Hr. apply list_elem_of_singleton in Hr. by subst r.
Defined.

End summary_keys_examples.

Section model_key_facts.
Import Extractors Compare.

Lemma contains_char_cons (sep c : ascii) (rest : string) :
  contains (String sep EmptyString) (String c rest)
  = Ascii.eqb c sep || contains (String sep EmptyString) rest.
Proof.
  cbn [contains String.prefix].
  destruct (ascii_dec sep c) as [->|Hne].
  - rewrite Ascii.eqb_refl. by destruct rest.
  - destruct (Ascii.eqb_spec c sep) as [->|_]; [done|reflexivity].
Qed.

Lemma split_not_nil (sep : ascii) (s : string) : split sep s ≠ [].
Proof.
  induction s as [|c rest IH]; [done|]. simpl.
  destruct (Ascii.eqb c sep); [done|]. by destruct (split sep rest).
Qed.

(** No piece of a split holds the separator. *)
Lemma split_pieces (sep : ascii) (s piece : string) :
  piece ∈ split sep s → contains (String sep EmptyString) piece = false.
Proof.
  revert piece. induction s as [|c rest IH]; intros piece; simpl.
  - by intros ->%list_elem_of_singleton.
  - destruct (Ascii.eqb c sep) eqn:Hc.
    + intros [->|Hin]%elem_of_cons; [done|by apply IH].
    + destruct (split sep rest) as [|first others] eqn:Hs.
      * intros ->%list_elem_of_singleton. by rewrite contains_char_cons, Hc.
      * intros [->|Hin]%elem_of_cons.
        -- rewrite contains_char_cons, Hc. apply IH. left.
        -- apply IH. by right.
Qed.

(** A string without the separator is its own single piece. *)
Lemma split_whole (sep : ascii) (s : string) :
  contains (String sep EmptyString) s = false → split sep s = [s].
Proof.
  induction s as [|c rest IH]; [done|].
  rewrite contains_char_cons. intros [Hc Hrest]%orb_false_elim.
  simpl. rewrite Hc, (IH Hrest). done.
Qed.

Lemma split_at_separator (sep : ascii) (front back : string) :
  split sep (front +:+ String sep back) = split sep front ++ split sep back.
Proof.
  induction front as [|c front IH]; simpl.
  - by rewrite Ascii.eqb_refl.
  - destruct (Ascii.eqb c sep); [by rewrite IH|].
    rewrite IH. pose proof (split_not_nil sep front).
    by destruct (split sep front).
Qed.

Lemma last_in {A} (l : list A) (d : A) : l ≠ [] → List.last l d ∈ l.
Proof.
  induction l as [|x l IH]; [done|]. intros _.
  destruct l as [|y l]; [left|]. right. by apply IH.
Qed.

Lemma last_app_r {A} (l1 l2 : list A) (d : A) :
  l2 ≠ [] → List.last (l1 ++ l2) d = List.last l2 d.
Proof.
  intros Hl2. induction l1 as [|x l1 IH]; [done|].
  simpl. rewrite IH. destruct (l1 ++ l2) eqn:E; [|done].
  apply app_eq_nil in E as [_ ->]. done.
Qed.

(** X5.  The key under which [generate_summary_stats] groups a model never
    holds a hyphen: it is the identifier itself when that has none, and
    otherwise what follows its last hyphen. *)
Theorem model_key_is_last_segment (m : ComparisonMetrics) :
  contains "-" (model_key m) = false ∧
  (contains "-" (m_model m) = false → model_key m = m_model m) ∧
  (∀ front back, m_model m = front +:+ "-" +:+ back → contains "-" back = false →
                 model_key m = back).
Proof.
  unfold model_key. split; [|split].
  - destruct (contains "-" (m_model m)) eqn:Hc; [|done].
    apply (split_pieces "-" (m_model m)). apply last_in, split_not_nil.
  - by intros ->.
  - intros front back Hm Hback.
    assert (Hc : contains "-" (m_model m) = true).
    { rewrite Hm. clear. induction front as [|c front IH].
      - change ("" +:+ "-" +:+ back) with (String "-" back).
        by rewrite contains_char_cons, Ascii.eqb_refl.
      - change (String c front +:+ "-" +:+ back)
          with (String c (front +:+ "-" +:+ back)).
        rewrite contains_char_cons, IH. apply orb_true_r. }
    rewrite Hc, Hm.
    change (front +:+ "-" +:+ back) with (front +:+ String "-" back).
    rewrite split_at_separator, last_app_r by apply split_not_nil.
    by rewrite (split_whole "-" back Hback).
Qed.

Lemma model_key_is_last_segment_witness :
  model_key (metrics_of (H := exact_arithmetic) _get_expected_field_counts
               (ExtractionResult_failed "claude-3-5-haiku-20241022" 1 "Basic" 0 "x"))
  = "20241022".
Proof.
  apply (proj2 (proj2 (model_key_is_last_segment _)) "claude-3-5-haiku"); reflexivity.
Defined.

End model_key_facts.

Section first_best.
Import Extractors Compare.
Context {A : Type} (key : A → Q).



End first_best.

Section single_query_ties.
Import Extractors Compare.



End single_query_ties.

Section cost_order.
Import Extractors.
Context `{Binary64}.

Lemma calculate_cost_by_family (p c : Z) (model : string) :
  _calculate_cost p c model
  = match family_of model with
    | Some f => spec_cost f p c
    | None => 0%Q
    end.
Proof.
  unfold _calculate_cost. rewrite model_category_family.
  destruct (family_of model) as [f|]; [|reflexivity].
  simpl. rewrite pricing_lookup. unfold spec_cost.
  by destruct (price_per_million f).
Qed.

Lemma py_round_mono (x y : Q) (ndigits : Z) :
  0 ≤ ndigits → (x <= y)%Q → (py_round x ndigits <= py_round y ndigits)%Q.
Proof.
  intros Hn Hxy. unfold py_round. apply rnd_mono.
  assert (Hscale : (0 < inject_Z (10 ^ ndigits))%Q).
  { change 0%Q with (inject_Z 0). rewrite <- Zlt_Qlt. by apply Z.pow_pos_nonneg. }
  unfold Qdiv. apply Qmult_le_compat_r.
  - rewrite <- Zle_Qle. apply round_half_even_mono.
    apply Qmult_le_compat_r; [done|by apply Qlt_le_weak].
  - by apply Qlt_le_weak, Qinv_lt_0_compat.
Qed.

Lemma price_nonneg (f : backend_family) :
  (0 <= (price_per_million f).1)%Q ∧ (0 <= (price_per_million f).2)%Q.
Proof. destruct f; split; discriminate. Qed.

Lemma spec_cost_mono (f : backend_family) (p p' c c' : Z) :
  p ≤ p' → c ≤ c' → (spec_cost f p c <= spec_cost f p' c')%Q.
Proof.
  intros Hp Hc. unfold spec_cost.
  destruct (price_nonneg f) as [Hin Hout].
  destruct (price_per_million f) as [pin pout]. cbn [fst snd] in *.
  apply py_round_mono; [done|]. unfold fadd, fmul, fdiv.
  apply rnd_mono. apply Qplus_le_compat.
  - apply rnd_mono. apply Qmult_le_compat_r; [|done]. apply rnd_mono.
    unfold Qdiv. apply Qmult_le_compat_r; [by rewrite <- Zle_Qle|discriminate].
  - apply rnd_mono. apply Qmult_le_compat_r; [|done]. apply rnd_mono.
    unfold Qdiv. apply Qmult_le_compat_r; [by rewrite <- Zle_Qle|discriminate].
Qed.

(** X7.  The cost of a call never falls when its token counts grow, and for
    token counts that are not negative it is not negative. *)
Theorem calculate_cost_monotone (p p' c c' : Z) (model : string) :
  p ≤ p' → c ≤ c' →
  (_calculate_cost p c model <= _calculate_cost p' c' model)%Q ∧
  (0 ≤ p → 0 ≤ c → (0 <= _calculate_cost p c model)%Q).
Proof.
  intros Hp Hc. rewrite !calculate_cost_by_family.
  destruct (family_of model) as [f|]; [|by split].
  split; [by apply spec_cost_mono|].
  intros Hp0 Hc0. rewrite <- (spec_cost_zero f). by apply spec_cost_mono.
Qed.

End cost_order.

Section cost_order_examples.
Import Extractors.

Lemma calculate_cost_monotone_witness :
  (_calculate_cost (H := exact_arithmetic) 1000 500 "gpt-4-turbo-preview"
   <= _calculate_cost (H := exact_arithmetic) 1200 600 "gpt-4-turbo-preview")%Q.
Proof.
  apply (calculate_cost_monotone (H := exact_arithmetic) 1000 1200 500 600); lia.
Defined.

End cost_order_examples.

Section extract_results.
Import Extractors Extractors_more.
Context `{Binary64}.
Variable settings : Settings.
Variable lag : Q.
Variable json_loads : string → option json.
Variable search_code_block : string → option string.
Variable search_braces : string → option string.
Variable messages_create : string → Z → string → nat → Q * outcome ClaudeResponse.
Variable chat_completions_create :
  string → Z → string → string → nat → Q * outcome OpenAIResponse.

Lemma Claude_attempt_shape (self : ClaudeExtractor) (text prompt : string)
    (query_type : Z) (query_name : string) (s : State) :
  ∃ r s',
    ClaudeExtractor_extract_attempt settings lag json_loads search_code_block
      search_braces messages_create self text prompt query_type query_name s
    = (Returned r, s') ∧
    result_shape (ce_model_name self) query_type query_name r ∧
    (error r = None → total_tokens r = prompt_tokens r + completion_tokens r) ∧
    extraction_time r = fsub (now s') (last_request_time (limiter s')).
Proof.
  unfold ClaudeExtractor_extract_attempt, acquire, bind, get_limiter, time_time,
    put_limiter, sleep, ret, try_except, wait_for, is_timeout.
  destruct (Qlt_le_dec _ _); cbn [calls advance now limiter];
    destruct (messages_create _ _ _ _) as [d [response|e]];
    destruct (Qlt_le_dec _ d); cbn [exn_class_of];
    try destruct (exn_class_of e);
    do 2 eexists; (split; [reflexivity|]); by repeat split.
Qed.

Lemma OpenAI_attempt_shape (self : OpenAIExtractor) (text prompt : string)
    (query_type : Z) (query_name : string) (s : State) :
  ∃ r s',
    OpenAIExtractor_extract_attempt settings lag json_loads search_code_block
      search_braces chat_completions_create self text prompt query_type query_name s
    = (Returned r, s') ∧
    result_shape (oe_model_name self) query_type query_name r ∧
    extraction_time r = fsub (now s') (last_request_time (limiter s')).
Proof.
  unfold OpenAIExtractor_extract_attempt, acquire, bind, get_limiter, time_time,
    put_limiter, sleep, ret, raise, try_except, wait_for, is_timeout.
  destruct (Qlt_le_dec _ _); cbn [calls advance now limiter];
    destruct (chat_completions_create _ _ _ _ _) as [d [response|e]];
    destruct (Qlt_le_dec _ d); cbn [exn_class_of];
    try destruct (exn_class_of e);
    try destruct (choices response) as [|first rest];
    do 2 eexists; (split; [reflexivity|]); by repeat split.
Qed.

(** X8.  Whatever the backend does, [extract] of either extractor returns a
    result that names the extractor's model and the query asked; a result
    with an error has no data, no raw response, zero tokens and zero cost; a
    result without one has the cost of its token counts at the prices of the
    model; and its elapsed time runs from the time the rate limiter granted
    the call, not from the time [extract] was called. *)
Theorem extract_result_shape (text prompt : string) (query_type : Z)
    (query_name : string) (s : State) :
  (∀ self : ClaudeExtractor,
     ∃ r s',
       ClaudeExtractor_extract settings lag json_loads search_code_block
         search_braces messages_create self text prompt query_type query_name s
       = (Returned r, s') ∧
       result_shape (ce_model_name self) query_type query_name r ∧
       (error r = None → total_tokens r = prompt_tokens r + completion_tokens r) ∧
       extraction_time r = fsub (now s') (last_request_time (limiter s'))) ∧
  (∀ self : OpenAIExtractor,
     ∃ r s',
       OpenAIExtractor_extract settings lag json_loads search_code_block
         search_braces chat_completions_create self text prompt query_type query_name s
       = (Returned r, s') ∧
       result_shape (oe_model_name self) query_type query_name r ∧
       extraction_time r = fsub (now s') (last_request_time (limiter s'))).
Proof.
  split; intros self.
  - destruct (Claude_attempt_shape self text prompt query_type query_name s)
      as (r & s' & Hr & Hshape).
    exists r, s'. split; [|exact Hshape].
    unfold ClaudeExtractor_extract, retry. by apply retrying_of_returned.
  - destruct (OpenAI_attempt_shape self text prompt query_type query_name s)
      as (r & s' & Hr & Hshape).
    exists r, s'. split; [|exact Hshape].
    unfold OpenAIExtractor_extract, retry. by apply retrying_of_returned.
Qed.

End extract_results.

Section acquire_delay.
Context `{Binary64} `{!Accurate}.


End acquire_delay.

Section acquire_delay_examples.


End acquire_delay_examples.

Section parse_effects.
Import Parser Parser_more.
Context `{Binary64}.
Variable settings : Settings.
Variable lag : Q.
Variable UNSTRUCTURED_AVAILABLE : bool.
Variable file_exists : string → bool.
Variable read_file : string → outcome string.
Variable stat_size : string → outcome Z.
Variable partition :
  string → string → ParsingStrategy → nat → Q * outcome PartitionResponse.
Variable import_partition_pdf : outcome unit.
Variable partition_pdf : string → ParsingStrategy → nat → Q * outcome (list LocalElement).

Lemma collect_loop (els : list Element) (elements : list (list (string * json)))
    (full_text_parts : list string) :
  foldl (λ '(elements, full_text_parts) element,
           let elem_text := default "" (el_text element) in
           let elem_dict :=
             [("type", match el_type element with
                       | Some ty => JStr ty
                       | None => JNull
                       end);
              ("text", JStr elem_text);
              ("metadata", default (JDict []) (el_metadata element))] in
           (elements ++ [elem_dict],
            if String.eqb elem_text "" then full_text_parts
            else full_text_parts ++ [elem_text]))
        (elements, full_text_parts) els
  = (elements ++ (elem_dict <$> els), full_text_parts ++ element_texts els).
Proof.
  revert elements full_text_parts.
  induction els as [|element els IH]; intros elements full_text_parts.
  - by rewrite !app_nil_r.
  - cbn [foldl]. rewrite IH. unfold element_texts. cbn [fmap list_fmap List.filter].
    fold (list_fmap _ _ (λ e, default "" (el_text e)) els).
    destruct (String.eqb (default "" (el_text element)) ""); cbn [negb].
    + by rewrite <- app_assoc.
    + by rewrite <- !app_assoc.
Qed.

Lemma collect_elements_map_filter (response : PartitionResponse) :
  collect_elements response
  = (elem_dict <$> default [] (resp_elements response),
     element_texts (default [] (resp_elements response))).
Proof.
  unfold collect_elements. destruct (resp_elements response) as [[|first others]|];
    [done| |done].
  by rewrite collect_loop.
Qed.

(** X10.  A remote parse that succeeds keeps every element of the response:
    when the file is there and can be read, the service answers within the
    timeout and the size of the file can be taken, [parse] returns a result
    without error that has one dictionary per element of the response, in its
    order, the count of the elements and the size of the file as metadata, as
    text the texts of the elements that have one, separated by blank lines,
    and a quarter of the length of that text as token count. *)
Theorem parse_api_success (self : PDFParser) (file : string)
    (strategy : ParsingStrategy) (s : State) (content : string) (d : Q)
    (response : PartitionResponse) (size : Z) :
  file_exists file = true →
  client self = true →
  read_file file = Returned content →
  partition (path_name file) content strategy (calls s) = (d, Returned response) →
  (d <= inject_Z (api_timeout settings))%Q →
  stat_size file = Returned size →
  let els := default [] (resp_elements response) in
  ∃ pr s',
    parse settings lag UNSTRUCTURED_AVAILABLE file_exists read_file stat_size
      partition import_partition_pdf partition_pdf self file strategy true s
    = (Returned pr, s') ∧
    pr.(error) = None ∧
    pr.(file_path) = file ∧
    pr.(Parser.strategy) = strategy ∧
    pr.(elements) = Some (elem_dict <$> els) ∧
    pr.(metadata) = Some [("num_elements", Z.of_nat (length els)); ("file_size", size)] ∧
    pr.(text) = join blank_line (element_texts els) ∧
    pr.(token_count) = Some (Z.of_nat (String.length pr.(text)) / 4) ∧
    calls s' = S (calls s).
Proof.
  intros Hex Hclient Hread Hpart Hfast Hstat els.
  unfold parse. rewrite Hex, Hclient. cbn [negb andb].
  rewrite (parse_with_api_no_retry settings lag UNSTRUCTURED_AVAILABLE read_file
             stat_size partition self file strategy s Hclient).
  unfold _parse_with_api_attempt. rewrite Hclient. cbn [negb].
  destruct (acquire_returns lag s) as (s1 & Hacq & Hc1).
  unfold bind at 1. rewrite Hacq.
  unfold bind at 1, time_time at 1, try_except.
  unfold bind at 1, lift at 1. rewrite Hread.
  unfold bind at 1, wait_for. rewrite Hc1, Hpart.
  destruct (Qlt_le_dec (inject_Z (api_timeout settings)) d) as [Hslow|_].
  { exfalso. by apply (Qlt_not_le _ _ Hslow). }
  unfold bind at 1, time_time at 1.
  rewrite collect_elements_map_filter. fold els.
  unfold bind at 1, lift. rewrite Hstat. unfold ret.
  do 2 eexists. split; [reflexivity|].
  cbn [error file_path Parser.strategy elements metadata text token_count parse_time
       calls advance now].
  rewrite length_fmap. by repeat split.
Qed.

End parse_effects.

Section parse_effects_examples.
Import Parser Parser_more.

Lemma parse_api_success_witness :
  ∃ pr s',
    parse (H := binary64) default_settings 0 true (λ _, true) (λ _, Returned "%PDF") (λ _, Returned 4)
      service_answers not_installed no_local_library
      {| client := true |} "in/report.pdf" HI_RES true parser_state
    = (Returned pr, s') ∧
    pr.(error) = None ∧
    length (default [] pr.(elements)) = 3%nat ∧
    pr.(metadata) = Some [("num_elements", 3); ("file_size", 4)] ∧
    pr.(text) = "Report" +:+ blank_line +:+ "Pay rose." ∧
    pr.(token_count) = Some 4.
Proof.
  destruct (parse_api_success (H := binary64) default_settings 0 true (λ _, true)
              (λ _, Returned "%PDF") (λ _, Returned 4) service_answers not_installed
              no_local_library {| client := true |} "in/report.pdf" HI_RES parser_state
              "%PDF" 2 two_paragraphs 4)
    as (pr & s' & Hpr & Herr & _ & _ & Hels & Hmeta & Htext & Htok & _);
    [reflexivity..|discriminate|reflexivity|].
  exists pr, s'. split; [exact Hpr|]. split; [exact Herr|].
  split; [by rewrite Hels|]. split; [exact Hmeta|]. split; [exact Htext|].
  by rewrite Htok, Htext.
Defined.

End parse_effects_examples.

Section parse_with_api_attempts.
Import Parser.
Context `{Binary64}.
Variable settings : Settings.
Variable lag : Q.
Variable UNSTRUCTURED_AVAILABLE : bool.
Variable read_file : string → outcome string.
Variable stat_size : string → outcome Z.
Variable partition :
  string → string → ParsingStrategy → nat → Q * outcome PartitionResponse.

(** X11.  The retry of [_parse_with_api] never happens: the decorated call
    is its first attempt.  Without a client it raises the [RuntimeError] at
    once, which is not retried, and leaves the clock, the count of requests
    and the limiter as they were; with a client it returns a result for the
    file and the strategy given, after one request, or none when the file
    cannot be read, and the parse time of the result is measured from the
    time the rate limiter granted the call. *)
Theorem parse_with_api_single_attempt (self : PDFParser) (file : string)
    (strategy : ParsingStrategy) (s : State) :
  _parse_with_api settings lag UNSTRUCTURED_AVAILABLE read_file stat_size partition
    self file strategy s
  = _parse_with_api_attempt settings lag read_file stat_size partition
      self file strategy s ∧
  (client self = false →
   _parse_with_api settings lag UNSTRUCTURED_AVAILABLE read_file stat_size partition
     self file strategy s
   = (Raised (Exn RuntimeError "Unstructured API client not initialized"), s)) ∧
  (client self = true →
   ∃ pr s',
     _parse_with_api settings lag UNSTRUCTURED_AVAILABLE read_file stat_size partition
       self file strategy s = (Returned pr, s') ∧
     pr.(file_path) = file ∧
     pr.(Parser.strategy) = strategy ∧
     pr.(parse_time) = fsub (now s') (last_request_time (limiter s')) ∧
     calls s' = match read_file file with
                | Returned _ => S (calls s)
                | Raised _ => calls s
                end).
Proof.
  assert (Hnone : client self = false →
            _parse_with_api settings lag UNSTRUCTURED_AVAILABLE read_file stat_size
              partition self file strategy s
            = (Raised (Exn RuntimeError "Unstructured API client not initialized"), s)).
  { intros Hclient. unfold _parse_with_api, retry, _parse_with_api_attempt.
    rewrite Hclient. reflexivity. }
  split; [|split; [exact Hnone|]].
  - destruct (client self) eqn:Hclient.
    + exact (parse_with_api_no_retry settings lag UNSTRUCTURED_AVAILABLE read_file
               stat_size partition self file strategy s Hclient).
    + rewrite (Hnone eq_refl). unfold _parse_with_api_attempt.
      rewrite Hclient. reflexivity.
  - intros Hclient.
    rewrite (parse_with_api_no_retry settings lag UNSTRUCTURED_AVAILABLE read_file
               stat_size partition self file strategy s Hclient).
    unfold _parse_with_api_attempt, acquire, bind, get_limiter, time_time,
      put_limiter, sleep, ret, try_except, wait_for, lift.
    rewrite Hclient. cbn [negb].
    destruct (Qlt_le_dec _ _); cbn [calls advance now limiter];
      destruct (read_file file) as [content|e0];
      try (destruct (partition _ _ _ _) as [d [response|e1]];
           destruct (Qlt_le_dec _ d); cbn [calls advance now limiter];
           try destruct (collect_elements response) as [els parts];
           try destruct (stat_size file) as [size|e2]);
      do 2 eexists; (split; [reflexivity|]); by repeat split.
Qed.

End parse_with_api_attempts.

Section compare_loop.
Import Extractors Main.
Context `{Binary64}.
Variable settings : Settings.
Variable lag : Q.
Variable json_loads : string → option json.
Variable search_code_block : string → option string.
Variable search_braces : string → option string.
Variable messages_create : string → Z → string → nat → Q * outcome ClaudeResponse.
Variable chat_completions_create :
  string → Z → string → string → nat → Q * outcome OpenAIResponse.
Variable prompts_dir : string.
Variable exists_ : string → bool.
Variable read_text : string → outcome string.

(** The backends answer in a time between 0 and [T], the configured rates
    and the timeout are positive numbers. *)
Variable T : Q.
Hypothesis anthropic_rate : 1 ≤ anthropic_rpm settings.
Hypothesis openai_rate : 1 ≤ openai_rpm settings.
Hypothesis timeout_nonneg : 0 ≤ api_timeout settings.
Hypothesis messages_time :
  ∀ model max_tokens user_message n,
    (0 <= (messages_create model max_tokens user_message n).1)%Q ∧
    ((messages_create model max_tokens user_message n).1 <= T)%Q.
Hypothesis completions_time :
  ∀ model max_tokens prompt text n,
    (0 <= (chat_completions_create model max_tokens prompt text n).1)%Q ∧
    ((chat_completions_create model max_tokens prompt text n).1 <= T)%Q.

Local Abbreviation create_extractor := (Main.create_extractor settings).
Local Abbreviation extract :=
  (Main.extract settings lag json_loads search_code_block search_braces
     messages_create chat_completions_create).
Local Abbreviation load_prompt := (Main.load_prompt prompts_dir exists_ read_text).

(** A limiter that has never granted is ready once the clock reads a
    minute. *)
Lemma new_limiter_ready (rpm : Z) (t : Q) :
  1 ≤ rpm → (60 <= t)%Q → (fdiv 60 (float_of_int rpm) <= fsub t 0)%Q.
Proof.
  intros Hrpm Ht. unfold fdiv, fsub, float_of_int. apply rnd_mono.
  assert (Hone : (1 <= rnd (inject_Z rpm))%Q).
  { rewrite <- rnd_1. apply rnd_mono. change 1%Q with (inject_Z 1).
    by rewrite <- Zle_Qle. }
  apply Qle_trans with 60%Q; [|lra].
  apply Qle_shift_div_r; [lra|]. lra.
Qed.

Lemma timeout_nonneg_Q : (0 <= inject_Z (api_timeout settings))%Q.
Proof. change 0%Q with (inject_Z 0). by rewrite <- Zle_Qle. Qed.

(** One extraction on a limiter that is ready: no wait, one request. *)
Lemma Claude_extract_ready (self : ClaudeExtractor) (text prompt : string)
    (query_type : Z) (query_name : string) (s : State) :
  (min_interval (limiter s) <= fsub (now s) (last_request_time (limiter s)))%Q →
  ∃ r s',
    ClaudeExtractor_extract settings lag json_loads search_code_block
      search_braces messages_create self text prompt query_type query_name s
    = (Returned r, s') ∧
    calls s' = S (calls s) ∧ (now s <= now s')%Q ∧ (now s' <= now s + T)%Q ∧
    last_request_time (limiter s') = now s ∧
    Extractors.query_type r = query_type ∧ Extractors.query_name r = query_name ∧
    model r = ce_model_name self.
Proof.
  intros Hready. pose proof timeout_nonneg_Q as Hto.
  assert (Hattempt : ∃ r s',
    ClaudeExtractor_extract_attempt settings lag json_loads search_code_block
      search_braces messages_create self text prompt query_type query_name s
    = (Returned r, s') ∧
    calls s' = S (calls s) ∧ (now s <= now s')%Q ∧ (now s' <= now s + T)%Q ∧
    last_request_time (limiter s') = now s ∧
    Extractors.query_type r = query_type ∧ Extractors.query_name r = query_name ∧
    model r = ce_model_name self).
  { unfold ClaudeExtractor_extract_attempt, acquire, bind, get_limiter, time_time,
      put_limiter, sleep, ret, try_except, wait_for, is_timeout.
    destruct (Qlt_le_dec _ _) as [Hshort|_]; [lra|].
    cbn [calls advance now limiter].
    match goal with |- context [messages_create ?m ?k ?u ?n] =>
      destruct (messages_time m k u n) as [Hd0 HdT];
      destruct (messages_create m k u n) as [d [response|e]]
    end; cbn [fst] in Hd0, HdT;
      destruct (Qlt_le_dec _ d); cbn [exn_class_of];
      try destruct (exn_class_of e);
      do 2 eexists; (split; [reflexivity|]);
      cbn [calls advance now limiter last_request_time set_last_request_time
           Extractors.query_type Extractors.query_name model ExtractionResult_failed];
      repeat split; lra. }
  destruct Hattempt as (r & s' & Hr & Hrest).
  exists r, s'. split; [|exact Hrest].
  unfold ClaudeExtractor_extract, retry. by apply retrying_of_returned.
Qed.

Lemma OpenAI_extract_ready (self : OpenAIExtractor) (text prompt : string)
    (query_type : Z) (query_name : string) (s : State) :
  (min_interval (limiter s) <= fsub (now s) (last_request_time (limiter s)))%Q →
  ∃ r s',
    OpenAIExtractor_extract settings lag json_loads search_code_block
      search_braces chat_completions_create self text prompt query_type query_name s
    = (Returned r, s') ∧
    calls s' = S (calls s) ∧ (now s <= now s')%Q ∧ (now s' <= now s + T)%Q ∧
    last_request_time (limiter s') = now s ∧
    Extractors.query_type r = query_type ∧ Extractors.query_name r = query_name ∧
    model r = oe_model_name self.
Proof.
  intros Hready. pose proof timeout_nonneg_Q as Hto.
  assert (Hattempt : ∃ r s',
    OpenAIExtractor_extract_attempt settings lag json_loads search_code_block
      search_braces chat_completions_create self text prompt query_type query_name s
    = (Returned r, s') ∧
    calls s' = S (calls s) ∧ (now s <= now s')%Q ∧ (now s' <= now s + T)%Q ∧
    last_request_time (limiter s') = now s ∧
    Extractors.query_type r = query_type ∧ Extractors.query_name r = query_name ∧
    model r = oe_model_name self).
  { unfold OpenAIExtractor_extract_attempt, acquire, bind, get_limiter, time_time,
      put_limiter, sleep, ret, raise, try_except, wait_for, is_timeout.
    destruct (Qlt_le_dec _ _) as [Hshort|_]; [lra|].
    cbn [calls advance now limiter].
    match goal with |- context [chat_completions_create ?m ?k ?p ?u ?n] =>
      destruct (completions_time m k p u n) as [Hd0 HdT];
      destruct (chat_completions_create m k p u n) as [d [response|e]]
    end; cbn [fst] in Hd0, HdT;
      destruct (Qlt_le_dec _ d); cbn [exn_class_of];
      try destruct (exn_class_of e);
      try destruct (choices response) as [|first rest];
      do 2 eexists; (split; [reflexivity|]);
      cbn [calls advance now limiter last_request_time set_last_request_time
           Extractors.query_type Extractors.query_name model ExtractionResult_failed
           exn_class_of];
      repeat split; lra. }
  destruct Hattempt as (r & s' & Hr & Hrest).
  exists r, s'. split; [|exact Hrest].
  unfold OpenAIExtractor_extract, retry. by apply retrying_of_returned.
Qed.

(** One turn of the inner loop: a new extractor, and its extraction. *)
Lemma extraction_turn (model_type : ModelType) (text prompt : string)
    (query_type : Z) (query_name : string) (s : State) :
  (60 <= now s)%Q →
  ∃ extractor l r s',
    create_extractor model_type = Returned (extractor, l) ∧
    (let! _ := put_limiter l in
     extract extractor text prompt query_type query_name) s = (Returned r, s') ∧
    calls s' = S (calls s) ∧ (now s <= now s')%Q ∧ (now s' <= now s + T)%Q ∧
    last_request_time (limiter s') = now s ∧
    Extractors.query_type r = query_type ∧ Extractors.query_name r = query_name ∧
    model r = model_name extractor.
Proof.
  intros Hnow.
  set (anthropic := {| requests_per_minute := anthropic_rpm settings;
                       min_interval := fdiv 60 (float_of_int (anthropic_rpm settings));
                       last_request_time := 0 |}).
  set (openai := {| requests_per_minute := openai_rpm settings;
                    min_interval := fdiv 60 (float_of_int (openai_rpm settings));
                    last_request_time := 0 |}).
  destruct model_type.
  - destruct (Claude_extract_ready
                {| ce_model_name := claude_sonnet_model settings;
                   ce_model_type := CLAUDE_SONNET |}
                text prompt query_type query_name
                {| now := now s; calls := calls s; limiter := anthropic |})
      as (r & s' & Hr & Hrest); [by apply new_limiter_ready|].
    exists (Claude {| ce_model_name := claude_sonnet_model settings;
                      ce_model_type := CLAUDE_SONNET |}), anthropic, r, s'.
    split; [|split; [exact Hr|exact Hrest]].
    unfold Main.create_extractor, ClaudeExtractor_init, RateLimiter_init.
    by rewrite decide_False by lia.
  - destruct (Claude_extract_ready
                {| ce_model_name := claude_haiku_model settings;
                   ce_model_type := CLAUDE_HAIKU |}
                text prompt query_type query_name
                {| now := now s; calls := calls s; limiter := anthropic |})
      as (r & s' & Hr & Hrest); [by apply new_limiter_ready|].
    exists (Claude {| ce_model_name := claude_haiku_model settings;
                      ce_model_type := CLAUDE_HAIKU |}), anthropic, r, s'.
    split; [|split; [exact Hr|exact Hrest]].
    unfold Main.create_extractor, ClaudeExtractor_init, RateLimiter_init.
    by rewrite decide_False by lia.
  - destruct (OpenAI_extract_ready
                {| oe_model_name := openai_gpt4_model settings |}
                text prompt query_type query_name
                {| now := now s; calls := calls s; limiter := openai |})
      as (r & s' & Hr & Hrest); [by apply new_limiter_ready|].
    exists (OpenAI {| oe_model_name := openai_gpt4_model settings |}), openai, r, s'.
    split; [|split; [exact Hr|exact Hrest]].
    unfold Main.create_extractor, OpenAIExtractor_init, RateLimiter_init.
    by rewrite decide_False by lia.
Qed.

Lemma for_model_types_spec (model_types : list ModelType) (text prompt : string)
    (query_type : Z) (acc : list ExtractionResult) (s : State) :
  (60 <= now s)%Q →
  ∃ rs s',
    for_model_types settings lag json_loads search_code_block search_braces
      messages_create chat_completions_create model_types text prompt query_type
      (get_query_name query_type) acc s = (Returned (acc ++ rs), s') ∧
    Forall2 (extraction_of settings query_type) model_types rs ∧
    calls s' = (calls s + length model_types)%nat ∧
    (now s <= now s')%Q ∧
    (now s' <= now s + inject_Z (Z.of_nat (length model_types)) * T)%Q.
Proof.
  revert acc s. induction model_types as [|model_type rest IH]; intros acc s Hnow.
  - exists [], s. rewrite app_nil_r. cbn [for_model_types length].
    split; [reflexivity|]. split; [constructor|]. split; [lia|].
    change (inject_Z (Z.of_nat 0)) with 0%Q. split; lra.
  - destruct (extraction_turn model_type text prompt query_type
                (get_query_name query_type) s Hnow)
      as (extractor & l & r & s1 & Hcreate & Hturn & Hcalls & Hlo & Hhi & _ &
          Hqt & Hqn & Hmodel).
    destruct (IH (acc ++ [r]) s1 ltac:(lra)) as (rs & s' & Hrest & Hall & Hc & Hlo' & Hhi').
    exists (r :: rs), s'. split; [|split; [|split; [|split]]].
    + cbn [for_model_types]. unfold bind at 1, Parser.lift at 1. rewrite Hcreate.
      cbn [fst snd]. unfold bind, put_limiter in Hturn |- *.
      rewrite Hturn. unfold bind in Hrest. rewrite Hrest.
      by rewrite <- app_assoc.
    + constructor; [|exact Hall]. split; [exact Hqt|]. split; [exact Hqn|].
      by exists extractor, l.
    + cbn [length]. lia.
    + lra.
    + cbn [length]. rewrite Nat2Z.inj_succ, <- Z.add_1_r, inject_Z_plus.
      change (inject_Z 1) with 1%Q. lra.
Qed.

Lemma extractions_cons (query_type : Z) (rest : list Z) (model_types : list ModelType) :
  extractions (query_type :: rest) model_types
  = ((λ model_type, (query_type, model_type)) <$> model_types)
    ++ extractions rest model_types.
Proof. reflexivity. Qed.

Lemma extractions_length (query_list : list Z) (model_types : list ModelType) :
  length (extractions query_list model_types)
  = (length query_list * length model_types)%nat.
Proof.
  induction query_list as [|q rest IH]; [reflexivity|].
  rewrite extractions_cons, length_app, length_fmap, IH. reflexivity.
Qed.

Lemma for_query_list_spec (query_list : list Z) (model_types : list ModelType)
    (text : string) (acc : list ExtractionResult) (s : State) :
  (60 <= now s)%Q →
  (∀ q, q ∈ query_list → ∃ prompt, load_prompt q = Returned prompt) →
  ∃ rs s',
    for_query_list settings lag json_loads search_code_block search_braces
      messages_create chat_completions_create prompts_dir exists_ read_text
      query_list model_types text acc s = (Returned (acc ++ rs), s') ∧
    Forall2 (λ e r, extraction_of settings e.1 e.2 r) (extractions query_list model_types) rs ∧
    calls s' = (calls s + length query_list * length model_types)%nat ∧
    (now s <= now s')%Q ∧
    (now s'
     <= now s + inject_Z (Z.of_nat (length query_list * length model_types)) * T)%Q.
Proof.
  revert acc s. induction query_list as [|q rest IH]; intros acc s Hnow Hprompts.
  - exists [], s. rewrite app_nil_r. cbn [for_query_list length Nat.mul].
    split; [reflexivity|]. split; [constructor|]. split; [lia|].
    change (inject_Z (Z.of_nat 0)) with 0%Q. split; lra.
  - destruct (Hprompts q ltac:(set_solver)) as (prompt & Hprompt).
    destruct (for_model_types_spec model_types text prompt q acc s Hnow)
      as (rs1 & s1 & Hinner & Hall1 & Hc1 & Hlo1 & Hhi1).
    destruct (IH (acc ++ rs1) s1 ltac:(lra) ltac:(set_solver))
      as (rs2 & s' & Houter & Hall2 & Hc2 & Hlo2 & Hhi2).
    exists (rs1 ++ rs2), s'. split; [|split; [|split; [|split]]].
    + cbn [for_query_list]. unfold bind at 1, Parser.lift at 1. rewrite Hprompt.
      unfold bind at 1. rewrite Hinner, Houter. by rewrite <- app_assoc.
    + rewrite extractions_cons. apply Forall2_app; [|exact Hall2].
      apply Forall2_fmap_l. eapply Forall2_impl; [exact Hall1|]. by intros.
    + cbn [length]. lia.
    + lra.
    + cbn [length]. 
      replace (Z.of_nat (S (length rest) * length model_types))
        with (Z.of_nat (length model_types)
              + Z.of_nat (length rest * length model_types)) by lia.
      rewrite inject_Z_plus. lra.
Qed.

(** X12.  In the [compare] command every extraction runs on a new
    extractor, and so on a rate limiter that has never granted: with the
    clock at a minute or more and rates of at least 1 in the settings, no
    extraction waits for a limiter.  The loops send one request per query
    and model type, in the order of the queries and, within a query, of the
    model types; every result names its query and the model of a new
    extractor of its type; and the loops end no later than the backends
    take to answer, so with backends that answer at once the clock does not
    move, whatever the rates. *)
Theorem compare_extractions_never_wait (text : string) (query_list : list Z)
    (model_types : list ModelType) (s : State) :
  (60 <= now s)%Q →
  (∀ q, q ∈ query_list → ∃ prompt, load_prompt q = Returned prompt) →
  ∃ results s',
    run_extractions settings lag json_loads search_code_block search_braces
      messages_create chat_completions_create prompts_dir exists_ read_text
      text query_list model_types s = (Returned results, s') ∧
    Forall2 (λ e r, extraction_of settings e.1 e.2 r)
            (extractions query_list model_types) results ∧
    length results = (length query_list * length model_types)%nat ∧
    calls s' = (calls s + length results)%nat ∧
    (now s <= now s')%Q ∧
    (now s' <= now s + inject_Z (Z.of_nat (length results)) * T)%Q.
Proof.
  intros Hnow Hprompts.
  destruct (for_query_list_spec query_list model_types text [] s Hnow Hprompts)
    as (results & s' & Hrun & Hall & Hcalls & Hlo & Hhi).
  assert (Hlen : length results = (length query_list * length model_types)%nat).
  { rewrite <- (Forall2_length _ _ _ Hall). apply extractions_length. }
  exists results, s'. rewrite Hlen. by repeat split.
Qed.

End compare_loop.

Section compare_loop_examples.
Import Extractors Main.

(** Two queries and two model types against backends that answer at once,
    in binary64 and with the rates of the default settings (50 and 60
    requests per minute): four requests, and the clock still at 1000. *)
Lemma compare_extractions_never_wait_witness :
  ∃ results s',
    run_extractions (H := binary64) default_settings 0 (λ _, Some (JDict []))
      (λ _, None) (λ _, None) answers_at_once completes_at_once
      "prompts" (λ _, true) (λ _, Returned "Extract the data.")
      "text" [1; 2] [CLAUDE_SONNET; GPT4_MODEL] fresh_state
    = (Returned results, s') ∧
    length results = 4%nat ∧
    calls s' = 4%nat ∧
    (now s' == 1000)%Q.
Proof.
  destruct (compare_extractions_never_wait (H := binary64) default_settings 0
              (λ _, Some (JDict [])) (λ _, None) (λ _, None)
              answers_at_once completes_at_once
              "prompts" (λ _, true) (λ _, Returned "Extract the data.") 0%Q
              ltac:(vm_compute; discriminate) ltac:(vm_compute; discriminate)
              ltac:(vm_compute; discriminate)
              ltac:(intros; split; discriminate) ltac:(intros; split; discriminate)
              "text" [1; 2] [CLAUDE_SONNET; GPT4_MODEL] fresh_state)
    as (results & s' & Hrun & _ & Hlen & Hcalls & Hlo & Hhi).
  - vm_compute. discriminate.
  - intros q Hq. rewrite !elem_of_cons in Hq.
    destruct Hq as [->|[->|Hq]]; [by eexists..|by apply elem_of_nil in Hq].
  - exists results, s'. split; [exact Hrun|]. split; [exact Hlen|].
    split; [by rewrite Hcalls, Hlen|].
    change (now fresh_state) with 1000%Q in Hlo, Hhi. lra.
Defined.

End compare_loop_examples.
